(** * drawWithCursor: a bounded cursor on a curses screen

    Shallow embedding of [src/drawWithCursor.py] (class [Window], enum
    [Direction], function [main]) and the properties of its cursor logic.

    Python integers are unbounded, so coordinates are [Z].  An attribute that
    may hold [None] ([cursor_x], [cursor_y], [message]) is an [option].  The
    methods mutate [self] and may raise, so they are computations in a state
    and exception monad over the record [Window].  The curses screen is not
    part of the repository: it is a parameter that decides, from the calls it
    has received so far, whether it accepts the next one; the [stdscr] field
    records every call the program issues, in order. *)

From Stdlib Require Import ZArith List String Bool Lia.
Import ListNotations.
Local Open Scope string_scope.
Local Open Scope list_scope.
Local Open Scope Z_scope.

(** ** Data *)

Inductive Direction : Type := LEFT | RIGHT | UP | DOWN.

(** What a caller may pass as [direction]: a member of the enum, or any other
    Python value (named by its representation). *)
Inductive token : Type :=
| Member (d : Direction)
| Other (repr : string).

(** The three [ValueError]s of the source, told apart by their message. *)
Inductive value_error : Type :=
| OutOfBounds                 (* "Cursor placement is out of bounds" *)
| BadDistance (distance : Z)  (* "distance (..) must be greater than zero" *)
| BadDirection (t : string).  (* "Direction not recognized .." *)

Inductive exn : Type :=
| ValueError (m : value_error)
| TypeError                   (* arithmetic or comparison on None *)
| curses_error.               (* raised by the screen *)

(** Calls on the screen.  [attr] is the number given to [curses.color_pair],
    when the call has one. *)
Inductive call : Type :=
| clear
| curs_set (visible : bool)
| start_color
| init_pair (n fg bg : Z)
| addstr (y x : Z) (s : string) (attr : option Z)
| refresh.

Module curses.
Definition COLOR_BLACK : Z := 0.
Definition COLOR_RED : Z := 1.
Definition COLOR_GREEN : Z := 2.
Definition COLOR_BLUE : Z := 4.
Definition COLOR_WHITE : Z := 7.
End curses.

Record Window : Type := mkWindow {
  stdscr : list call;
  buffer_top : Z;
  buffer_bottom : Z;
  buffer_left : Z;
  buffer_right : Z;
  prev_point_char : string;
  curr_point_char : string;
  prev_point_color_pair : Z * Z;
  curr_point_color_pair : Z * Z;
  message : option string;
  draw_border : bool;
  cursor_x : option Z;
  cursor_y : option Z;
  initial_cursor_x : Z;
  initial_cursor_y : Z;
  min_x : Z;
  min_y : Z;
  max_x : Z;
  max_y : Z;
  cursor_min_x : Z;
  cursor_max_x : Z;
  cursor_min_y : Z;
  cursor_max_y : Z
}.

Definition set_stdscr (l : list call) (w : Window) : Window :=
  mkWindow l (buffer_top w) (buffer_bottom w) (buffer_left w) (buffer_right w)
    (prev_point_char w) (curr_point_char w)
    (prev_point_color_pair w) (curr_point_color_pair w)
    (message w) (draw_border w) (cursor_x w) (cursor_y w)
    (initial_cursor_x w) (initial_cursor_y w)
    (min_x w) (min_y w) (max_x w) (max_y w)
    (cursor_min_x w) (cursor_max_x w) (cursor_min_y w) (cursor_max_y w).

Definition set_cursor (x y : option Z) (w : Window) : Window :=
  mkWindow (stdscr w)
    (buffer_top w) (buffer_bottom w) (buffer_left w) (buffer_right w)
    (prev_point_char w) (curr_point_char w)
    (prev_point_color_pair w) (curr_point_color_pair w)
    (message w) (draw_border w) x y
    (initial_cursor_x w) (initial_cursor_y w)
    (min_x w) (min_y w) (max_x w) (max_y w)
    (cursor_min_x w) (cursor_max_x w) (cursor_min_y w) (cursor_max_y w).

Definition set_boundaries (x0 y0 x1 y1 cx0 cx1 cy0 cy1 : Z) (w : Window)
  : Window :=
  mkWindow (stdscr w)
    (buffer_top w) (buffer_bottom w) (buffer_left w) (buffer_right w)
    (prev_point_char w) (curr_point_char w)
    (prev_point_color_pair w) (curr_point_color_pair w)
    (message w) (draw_border w) (cursor_x w) (cursor_y w)
    (initial_cursor_x w) (initial_cursor_y w)
    x0 y0 x1 y1 cx0 cx1 cy0 cy1.

(** ** The monad of methods: state [Window], exceptions [exn] *)

Definition M (A : Type) : Type := Window -> Window * (exn + A).

Definition ret {A} (a : A) : M A := fun w => (w, inr a).

Definition raise {A} (e : exn) : M A := fun w => (w, inl e).

Definition bind {A B} (c : M A) (k : A -> M B) : M B :=
  fun w =>
    match c w with
    | (w', inr a) => k a w'
    | (w', inl e) => (w', inl e)
    end.

Definition gets {A} (f : Window -> A) : M A := fun w => (w, inr (f w)).

Definition modify (f : Window -> Window) : M unit := fun w => (f w, inr tt).

Notation "x <- c ;; k" := (bind c (fun x => k))
  (at level 61, c at next level, right associativity).
Notation "c ;; k" := (bind c (fun _ => k))
  (at level 61, right associativity).

Fixpoint for_each (l : list Z) (body : Z -> M unit) : M unit :=
  match l with
  | [] => ret tt
  | i :: l' => body i ;; for_each l' body
  end.

(** Hoare triples: from a state satisfying [P], [c] ends in a state
    satisfying [Q] when it returns and [E] when it raises. *)
Definition hoare {A} (P : Window -> Prop) (c : M A)
    (Q : A -> Window -> Prop) (E : exn -> Window -> Prop) : Prop :=
  forall w, P w ->
    match c w with
    | (w', inr a) => Q a w'
    | (w', inl e) => E e w'
    end.

(** A property of the window that does not look at the screen. *)
Definition stable (P : Window -> Prop) : Prop :=
  forall w l, P w -> P (set_stdscr l w).

(** Python's [range(lo, hi)]. *)
Definition range (lo hi : Z) : list Z :=
  map (fun i => lo + Z.of_nat i) (seq 0 (Z.to_nat (hi - lo))).

(** [cursor_position_in_bounds] (lines 89-101) on integers. *)
Definition cursor_position_in_bounds (w : Window) (x y : Z) : bool :=
  if negb ((cursor_min_x w <=? x) && (x <=? cursor_max_x w))
     || negb ((cursor_min_y w <=? y) && (y <=? cursor_max_y w))
  then false
  else true.

(** The same test on operands that may be [None]: comparing [None] with an
    integer raises [TypeError], and [or] skips the test on [y] when [x] is
    already out of range. *)
Definition cursor_position_in_bounds_dyn (w : Window) (x y : option Z)
  : exn + bool :=
  match x, y with
  | Some x, Some y => inr (cursor_position_in_bounds w x y)
  | None, _ => inl TypeError
  | Some x, None =>
      if negb ((cursor_min_x w <=? x) && (x <=? cursor_max_x w))
      then inr false
      else inl TypeError
  end.

(** [a - d] and [a + d] where [a] may be [None]. *)
Definition sub_dyn (a : option Z) (d : Z) : exn + Z :=
  match a with Some v => inr (v - d) | None => inl TypeError end.

Definition add_dyn (a : option Z) (d : Z) : exn + Z :=
  match a with Some v => inr (v + d) | None => inl TypeError end.

Section Screen.

(** [curses.COLS] and [curses.LINES]: set when curses starts; the program
    never asks curses to update them. *)
Variables COLS LINES : Z.

(** The screen: given the calls received so far, does it accept the next
    one?  A refused call raises [curses.error]. *)
Variable accepts : list call -> call -> bool.

Definition emit (c : call) : M unit :=
  fun w =>
    (set_stdscr (stdscr w ++ [c]) w,
     if accepts (stdscr w) c then inr tt else inl curses_error).

(** Lines 57-73. *)
Definition update_boundaries : M unit :=
  modify (fun w =>
    let min_x := buffer_left w in
    let min_y := buffer_top w + 1 in
    let max_x := COLS - 2 - buffer_right w in
    let max_y := LINES - 1 - buffer_bottom w in
    if draw_border w
    then set_boundaries min_x min_y max_x max_y
           (min_x + 1) (max_x - 1) (min_y + 1) (max_y - 1) w
    else set_boundaries min_x min_y max_x max_y
           min_x max_x min_y max_y w).

(** Lines 75-87. *)
Definition draw_box : M unit :=
  y0 <- gets min_y ;;
  y1 <- gets max_y ;;
  for_each (range y0 (y1 + 1)) (fun y =>
    xl <- gets min_x ;;
    emit (addstr y xl "|" None) ;;
    xr <- gets max_x ;;
    emit (addstr y xr "|" None)) ;;
  x0 <- gets min_x ;;
  x1 <- gets max_x ;;
  for_each (range x0 (x1 + 1)) (fun x =>
    yt <- gets min_y ;;
    emit (addstr yt x "-" None) ;;
    yb <- gets max_y ;;
    emit (addstr yb x "-" None)).

(** Lines 103-140. *)
Definition update_cursor (x y : Z) : M unit :=
  ok <- gets (fun w => cursor_position_in_bounds w x y) ;;
  if negb ok
  then raise (ValueError OutOfBounds)
  else
    cx <- gets cursor_x ;;
    cy <- gets cursor_y ;;
    match cx, cy with
    | Some cx, Some cy =>
        ch <- gets prev_point_char ;;
        emit (addstr cy cx ch (Some 1))
    | _, _ => ret tt
    end ;;
    ch <- gets curr_point_char ;;
    emit (addstr y x ch (Some 2)) ;;
    modify (set_cursor (Some x) (Some y)) ;;
    emit refresh.

(** [update_cursor] called with attributes that may still be [None]
    (line 204): the bounds test comes first and decides. *)
Definition update_cursor_dyn (x y : option Z) : M unit :=
  r <- gets (fun w => cursor_position_in_bounds_dyn w x y) ;;
  match r, x, y with
  | inl e, _, _ => raise e
  | inr _, Some x, Some y => update_cursor x y
  | inr _, _, _ => raise (ValueError OutOfBounds)
  end.

(** Lines 158-167: the candidate position. *)
Definition candidate (w : Window) (direction : token) (distance : Z)
  : exn + (option Z * option Z) :=
  match direction with
  | Member LEFT =>
      match sub_dyn (cursor_x w) distance with
      | inr x => inr (Some x, cursor_y w)
      | inl e => inl e
      end
  | Member RIGHT =>
      match add_dyn (cursor_x w) distance with
      | inr x => inr (Some x, cursor_y w)
      | inl e => inl e
      end
  | Member UP =>
      match sub_dyn (cursor_y w) distance with
      | inr y => inr (cursor_x w, Some y)
      | inl e => inl e
      end
  | Member DOWN =>
      match add_dyn (cursor_y w) distance with
      | inr y => inr (cursor_x w, Some y)
      | inl e => inl e
      end
  | Other t => inl (ValueError (BadDirection t))
  end.

(** Lines 142-175. *)
Definition move_cursor (direction : token) (distance : Z) : M bool :=
  if distance <? 1
  then raise (ValueError (BadDistance distance))
  else
    c <- gets (fun w => candidate w direction distance) ;;
    match c with
    | inl e => raise e
    | inr (x, y) =>
        r <- gets (fun w => cursor_position_in_bounds_dyn w x y) ;;
        match r, x, y with
        | inl e, _, _ => raise e
        | inr true, Some x, Some y => update_cursor x y ;; ret true
        | inr _, _, _ => ret false
        end
    end.

(** Lines 177-208. *)
Definition draw_initial_screen (reset_cursor : bool) : M unit :=
  emit clear ;;
  emit (curs_set false) ;;
  emit start_color ;;
  p <- gets prev_point_color_pair ;;
  emit (init_pair 1 (fst p) (snd p)) ;;
  c <- gets curr_point_color_pair ;;
  emit (init_pair 2 (fst c) (snd c)) ;;
  update_boundaries ;;
  m <- gets message ;;
  match m with
  | Some text => emit (addstr 0 0 text None)
  | None => ret tt
  end ;;
  b <- gets draw_border ;;
  (if b then draw_box else ret tt) ;;
  (if reset_cursor
   then modify (set_cursor None None) ;;
        x <- gets initial_cursor_x ;;
        y <- gets initial_cursor_y ;;
        update_cursor x y
   else x <- gets cursor_x ;;
        y <- gets cursor_y ;;
        update_cursor_dyn x y) ;;
  emit refresh.

(** Lines 28-51: the attributes [__init__] sets before it draws.  The
    boundary attributes do not exist until [update_boundaries] creates
    them; nothing reads them before, so they start at 0 here. *)
Definition init_attributes (scr : list call) (cursor_x cursor_y : option Z)
    (buffer_top buffer_bottom buffer_left buffer_right : Z)
    (prev_point_char curr_point_char : string)
    (prev_point_color_pair curr_point_color_pair : Z * Z)
    (message : option string) (draw_border : bool) : Window :=
  let initial_cursor_x :=
    match cursor_x with
    | None => if draw_border then buffer_left + 1 else buffer_left
    | Some x => x
    end in
  let initial_cursor_y :=
    match cursor_y with
    | None => if draw_border then buffer_top + 2 else buffer_top + 1
    | Some y => y
    end in
  mkWindow scr buffer_top buffer_bottom buffer_left buffer_right
    prev_point_char curr_point_char
    prev_point_color_pair curr_point_color_pair
    message draw_border None None
    initial_cursor_x initial_cursor_y 0 0 0 0 0 0 0 0.

(** Lines 23-55. *)
Definition __init__ (scr : list call) (cursor_x cursor_y : option Z)
    (buffer_top buffer_bottom buffer_left buffer_right : Z)
    (prev_point_char curr_point_char : string)
    (prev_point_color_pair curr_point_color_pair : Z * Z)
    (message : option string) (draw_border : bool)
  : Window * (exn + unit) :=
  draw_initial_screen true
    (init_attributes scr cursor_x cursor_y
       buffer_top buffer_bottom buffer_left buffer_right
       prev_point_char curr_point_char
       prev_point_color_pair curr_point_color_pair message draw_border).

(** Lines 251-272: one turn of the loop of [main] on the key read.  The
    result says whether the loop goes on. *)
Definition handle_key (key : string) : M bool :=
  if String.eqb key "KEY_LEFT" then move_cursor (Member LEFT) 1 ;; ret true
  else if String.eqb key "KEY_RIGHT"
       then move_cursor (Member RIGHT) 1 ;; ret true
  else if String.eqb key "KEY_UP" then move_cursor (Member UP) 1 ;; ret true
  else if String.eqb key "KEY_DOWN"
       then move_cursor (Member DOWN) 1 ;; ret true
  else if String.eqb key "c" || String.eqb key "C"
       then draw_initial_screen false ;; ret true
  else if String.eqb key "q" || String.eqb key "Q" then ret false
  else ret true.

(** The loop on the keys typed; it stops at q, at an exception, or where
    the next read would block. *)
Fixpoint main_loop (keys : list string) : M unit :=
  match keys with
  | [] => ret tt
  | key :: rest =>
      go_on <- handle_key key ;;
      if go_on then main_loop rest else ret tt
  end.

Definition help_text : string :=
  "Use the arrow keys to move around. Type c or C to clear the drawing and start over. Type q or Q to exit.".

(** Lines 220-274. *)
Definition main (scr : list call) (keys : list string)
  : Window * (exn + unit) :=
  match __init__ scr None None 1 1 1 1 "#" "@"
          (curses.COLOR_WHITE, curses.COLOR_BLUE)
          (curses.COLOR_WHITE, curses.COLOR_GREEN)
          (Some help_text) true with
  | (w, inr _) => main_loop keys w
  | (w, inl e) => (w, inl e)
  end.


(** ** States and invariant *)

(** The public methods that touch the window. *)
Inductive method : Type :=
| call_update_boundaries
| call_draw_box
| call_update_cursor (x y : Z)
| call_move_cursor (direction : token) (distance : Z)
| call_draw_initial_screen (reset_cursor : bool).

(** The window after a method call, whether it returned or raised. *)
Definition run (m : method) (w : Window) : Window :=
  match m with
  | call_update_boundaries => fst (update_boundaries w)
  | call_draw_box => fst (draw_box w)
  | call_update_cursor x y => fst (update_cursor x y w)
  | call_move_cursor d n => fst (move_cursor d n w)
  | call_draw_initial_screen b => fst (draw_initial_screen b w)
  end.

(** The windows a program can hold: built by the constructor, then used
    through the methods. *)
Inductive reachable : Window -> Prop :=
| reach_init scr cx cy bt bb bl br pc cc pp cp msg db w :
    __init__ scr cx cy bt bb bl br pc cc pp cp msg db = (w, inr tt) ->
    reachable w
| reach_call w m :
    reachable w -> reachable (run m w).

(** The screen never refuses a call. *)
Definition reliable : Prop := forall h c, accepts h c = true.

(** The stored boundaries are the ones of the configuration. *)
Definition boundaries_current (w : Window) : Prop :=
  fst (update_boundaries w) = w.

(** A placed cursor is inside the inner rectangle. *)
Definition cursor_placed_ok (w : Window) : Prop :=
  forall x y, cursor_x w = Some x -> cursor_y w = Some y ->
    cursor_position_in_bounds w x y = true.

Definition wf (w : Window) : Prop :=
  boundaries_current w /\ cursor_placed_ok w.

(** The calls a cursor move adds to the screen. *)
Definition cursor_paints (w : Window) (x y : Z) : list call :=
  match cursor_x w, cursor_y w with
  | Some cx, Some cy => [addstr cy cx (prev_point_char w) (Some 1)]
  | _, _ => []
  end ++ [addstr y x (curr_point_char w) (Some 2); refresh].

End Screen.

(** ** Vocabulary of the statements *)

(** The candidate of a move as the specification words it: the position
    offset by [distance] along one axis (LEFT: -x, RIGHT: +x, UP: -y,
    DOWN: +y). *)
Definition offset (d : Direction) (distance x y : Z) : Z * Z :=
  match d with
  | LEFT => (x - distance, y)
  | RIGHT => (x + distance, y)
  | UP => (x, y - distance)
  | DOWN => (x, y + distance)
  end.

(** The outer rectangle (min_x, max_x, min_y, max_y) as the specification
    words it. *)
Definition spec_outer (COLS LINES : Z) (w : Window) : Z * Z * Z * Z :=
  (buffer_left w, COLS - 1 - buffer_right w,
   buffer_top w, LINES - 1 - buffer_bottom w).

(** Paints of the cursor: the trail glyph uses colour pair 1, the head glyph
    colour pair 2; the message and the border use none. *)
Definition is_trail_paint (c : call) : bool :=
  match c with
  | addstr _ _ _ (Some 1) => true
  | _ => false
  end.

Definition is_cursor_paint (c : call) : bool :=
  match c with
  | addstr _ _ _ (Some _) => true
  | _ => false
  end.


(** A property of the window that survives a call on the screen, as long as
    the call is not one that [p] singles out. *)
Definition grows (p : call -> bool) (P : Window -> Prop) : Prop :=
  forall w c, p c = false -> P w -> P (set_stdscr (stdscr w ++ [c]) w).

(** The window [w0] after further calls on the screen, of which those that
    [p] singles out are [marked], and with the attributes of [wref]. *)
Definition logged (p : call -> bool) (marked : list call)
    (w0 wref : Window) (w : Window) : Prop :=
  exists l, w = set_stdscr (stdscr w0 ++ l) wref /\ filter p l = marked.

(** A screen that accepts every call. *)
Definition accepts_all (_ : list call) (_ : call) : bool := true.

(** The window of the scenario: a 14 x 8 terminal, no margin at the top, a
    border, the cursor placed at (3, 3); its inner rectangle is
    x in [2, 10], y in [2, 5]. *)
Definition scenario : Window :=
  fst (__init__ 14 8 accepts_all [] (Some 3) (Some 3) 0 1 1 1 "#" "@"
         (curses.COLOR_WHITE, curses.COLOR_BLACK)
         (curses.COLOR_RED, curses.COLOR_WHITE) None true).

(** The attributes of a window built with every argument at its default. *)
Definition default_attributes : Window :=
  init_attributes [] None None 1 1 1 1 "#" "@"
    (curses.COLOR_WHITE, curses.COLOR_BLACK)
    (curses.COLOR_RED, curses.COLOR_WHITE) None true.


(** ** Vocabulary of the further properties *)

(** The calls [draw_box] issues, in order: the two sides row by row, then the
    top and the bottom column by column. *)
Definition box_calls (w : Window) : list call :=
  flat_map (fun y => [addstr y (min_x w) "|" None;
                      addstr y (max_x w) "|" None])
    (range (min_y w) (max_y w + 1))
  ++ flat_map (fun x => [addstr (min_y w) x "-" None;
                         addstr (max_y w) x "-" None])
       (range (min_x w) (max_x w + 1)).

(** The two paints of [update_cursor], in order: the trail glyph on the cell
    the cursor leaves, when it has one, and the head glyph on the new cell. *)
Definition paint_calls (w : Window) (x y : Z) : list call :=
  match cursor_x w, cursor_y w with
  | Some cx, Some cy => [addstr cy cx (prev_point_char w) (Some 1)]
  | _, _ => []
  end ++ [addstr y x (curr_point_char w) (Some 2)].

(** The screen after the calls [cs] are issued in order on the history [h],
    up to and including the first one it refuses, and whether all were
    accepted. *)
Fixpoint emit_all (accepts : list call -> call -> bool)
    (h : list call) (cs : list call) : list call * bool :=
  match cs with
  | [] => (h, true)
  | c :: cs' =>
      if accepts h c then emit_all accepts (h ++ [c]) cs' else (h ++ [c], false)
  end.

(** What the constructor's arguments set, and what [update_boundaries]
    sets. *)
Definition configuration (w : Window) :=
  (buffer_top w, buffer_bottom w, buffer_left w, buffer_right w,
   prev_point_char w, curr_point_char w,
   prev_point_color_pair w, curr_point_color_pair w,
   message w, draw_border w, initial_cursor_x w, initial_cursor_y w).

Definition boundaries (w : Window) :=
  (min_x w, min_y w, max_x w, max_y w,
   cursor_min_x w, cursor_max_x w, cursor_min_y w, cursor_max_y w).

Definition opposite (d : Direction) : Direction :=
  match d with
  | LEFT => RIGHT
  | RIGHT => LEFT
  | UP => DOWN
  | DOWN => UP
  end.

(** The keys of [main]: the direction of an arrow key, and the keys that
    end the loop. *)
Definition arrow (key : string) : option Direction :=
  if String.eqb key "KEY_LEFT" then Some LEFT
  else if String.eqb key "KEY_RIGHT" then Some RIGHT
  else if String.eqb key "KEY_UP" then Some UP
  else if String.eqb key "KEY_DOWN" then Some DOWN
  else None.

Definition quits (key : string) : bool :=
  String.eqb key "q" || String.eqb key "Q".

(** Where a key takes a cursor placed at [p]: one cell along the arrow when
    that cell is inside the inner rectangle of [w]; nowhere otherwise. *)
Definition next_position (w : Window) (key : string) (p : Z * Z) : Z * Z :=
  match arrow key with
  | Some d =>
      let q := offset d 1 (fst p) (snd p) in
      if cursor_position_in_bounds w (fst q) (snd q) then q else p
  | None => p
  end.

(** Where the keys typed take the cursor, up to the first q. *)
Fixpoint path (w : Window) (keys : list string) (p : Z * Z) : Z * Z :=
  match keys with
  | [] => p
  | key :: rest =>
      if quits key then p else path w rest (next_position w key p)
  end.

(** The calls of [draw_initial_screen] before it places the cursor, on a
    window whose boundaries are set: the screen is cleared and set up, then
    the message and the border are drawn. *)
Definition decoration_calls (w : Window) : list call :=
  [clear; curs_set false; start_color;
   init_pair 1 (fst (prev_point_color_pair w)) (snd (prev_point_color_pair w));
   init_pair 2 (fst (curr_point_color_pair w)) (snd (curr_point_color_pair w))]
  ++ match message w with
     | Some text => [addstr 0 0 text None]
     | None => []
     end
  ++ (if draw_border w then box_calls w else []).

(** A call that is not a coloured paint outside the inner rectangle of [w]:
    the cursor glyphs are the only coloured paints. *)
Definition inside (w : Window) (c : call) : bool :=
  match c with
  | addstr y x _ (Some _) => cursor_position_in_bounds w x y
  | _ => true
  end.

(** The window [w] has the configuration of [wref], a cursor that is unset
    or inside the inner rectangle of [wref], and the screen [h0] followed by
    calls that paint no colour outside that rectangle. *)
Definition paints_inside (wref : Window) (h0 : list call) (w : Window)
  : Prop :=
  configuration w = configuration wref
  /\ (forall x y, cursor_x w = Some x -> cursor_y w = Some y ->
        cursor_position_in_bounds wref x y = true)
  /\ exists l, stdscr w = h0 ++ l
               /\ Forall (fun c => inside wref c = true) l.

(** A screen that accepts the paints and refuses every refresh. *)
Definition refuses_refresh (_ : list call) (c : call) : bool :=
  match c with
  | refresh => false
  | _ => true
  end.

(** * Properties *)

Section Properties.

Variables COLS LINES : Z.
Variable accepts : list call -> call -> bool.

Local Abbreviation emit := (emit accepts).
Local Abbreviation update_boundaries := (update_boundaries COLS LINES).
Local Abbreviation draw_box := (draw_box accepts).
Local Abbreviation update_cursor := (update_cursor accepts).
Local Abbreviation update_cursor_dyn := (update_cursor_dyn accepts).
Local Abbreviation move_cursor := (move_cursor accepts).
Local Abbreviation draw_initial_screen :=
  (draw_initial_screen COLS LINES accepts).
Local Abbreviation __init__ := (__init__ COLS LINES accepts).
Local Abbreviation handle_key := (handle_key COLS LINES accepts).
Local Abbreviation run := (run COLS LINES accepts).
Local Abbreviation reachable := (reachable COLS LINES accepts).
Local Abbreviation reliable := (reliable accepts).
Local Abbreviation boundaries_current := (boundaries_current COLS LINES).
Local Abbreviation wf := (wf COLS LINES).

(** ** Rules of the Hoare triples *)

Lemma hoare_ret {A} (a : A) (P : Window -> Prop) Q E :
  (forall w, P w -> Q a w) -> hoare P (ret a) Q E.
Proof. intros H w Hw. cbn. auto. Qed.

Lemma hoare_raise {A} e (P : Window -> Prop) (Q : A -> Window -> Prop) E :
  (forall w, P w -> E e w) -> hoare P (raise e) Q E.
Proof. intros H w Hw. cbn. auto. Qed.

Lemma hoare_bind {A B} (c : M A) (k : A -> M B) P R Q E :
  hoare P c R E -> (forall a, hoare (R a) (k a) Q E) ->
  hoare P (bind c k) Q E.
Proof.
  intros Hc Hk w Hw. unfold bind. specialize (Hc w Hw).
  destruct (c w) as [w' [e | a]]; [exact Hc | exact (Hk a w' Hc)].
Qed.

Lemma hoare_gets {A B} (f : Window -> A) (k : A -> M B) P Q E :
  (forall a, hoare (fun w => P w /\ f w = a) (k a) Q E) ->
  hoare P (bind (gets f) k) Q E.
Proof.
  intros Hk w Hw. unfold bind, gets. apply (Hk (f w)). auto.
Qed.

Lemma hoare_modify (f : Window -> Window) (P : Window -> Prop) Q E :
  (forall w, P w -> Q tt (f w)) -> hoare P (modify f) Q E.
Proof. intros H w Hw. cbn. auto. Qed.

Lemma hoare_weaken {A} (c : M A) (P P' : Window -> Prop) Q Q' E E' :
  hoare P' c Q' E' ->
  (forall w, P w -> P' w) ->
  (forall a w, Q' a w -> Q a w) ->
  (forall e w, E' e w -> E e w) ->
  hoare P c Q E.
Proof.
  intros Hc HP HQ HE w Hw. specialize (Hc w (HP w Hw)).
  destruct (c w) as [w' [e | a]]; auto.
Qed.

Lemma hoare_emit c (P : Window -> Prop) :
  stable P ->
  hoare P (emit c) (fun _ => P) (fun e w => e = curses_error /\ P w).
Proof.
  intros HP w Hw. unfold emit.
  destruct (accepts (stdscr w) c); [| split; [reflexivity |]]; apply HP, Hw.
Qed.

Lemma hoare_for_each l body (P : Window -> Prop) E :
  (forall i, hoare P (body i) (fun _ => P) E) ->
  hoare P (for_each l body) (fun _ => P) E.
Proof.
  intros Hb. induction l as [| i l IH]; cbn [for_each].
  - apply hoare_ret. auto.
  - eapply hoare_bind; [apply Hb | intros u; exact IH].
Qed.

Lemma hoare_gets_drop {A B} (f : Window -> A) (k : A -> M B) P Q E :
  (forall a, hoare P (k a) Q E) -> hoare P (bind (gets f) k) Q E.
Proof.
  intros Hk. apply hoare_gets. intros a.
  eapply hoare_weaken; [apply (Hk a) | | |]; cbn; tauto.
Qed.

Lemma hoare_emit_last c (P : Window -> Prop) Q E :
  stable P ->
  (forall w, P w -> Q tt w) -> (forall w, P w -> E curses_error w) ->
  hoare P (emit c) Q E.
Proof.
  intros HP HQ HE. eapply hoare_weaken; [apply (hoare_emit c P HP) | | |];
    cbn; auto.
  - intros []. auto.
  - intros e w [-> Hw]. auto.
Qed.

Lemma hoare_emit_then {B} c (k : unit -> M B) (P : Window -> Prop) Q E :
  stable P ->
  (forall w, P w -> E curses_error w) ->
  hoare P (k tt) Q E ->
  hoare P (bind (emit c) k) Q E.
Proof.
  intros HP HE Hk. eapply hoare_bind.
  - apply (hoare_emit_last c P (fun _ => P) E); auto.
  - intros []. exact Hk.
Qed.

Lemma hoare_fst {A} (c : M A) (P I : Window -> Prop) w :
  hoare P c (fun _ => I) (fun _ => I) -> P w -> I (fst (c w)).
Proof.
  intros Hc Hw. specialize (Hc w Hw). destruct (c w) as [w' [e | a]]; auto.
Qed.

(** ** The invariant *)

Ltac fields w :=
  destruct w; unfold set_boundaries, set_stdscr, set_cursor in *; cbn in *.

Lemma boundaries_current_frame w l x y :
  boundaries_current w ->
  boundaries_current (set_stdscr l (set_cursor x y w)).
Proof.
  unfold boundaries_current, update_boundaries, modify. fields w.
  destruct draw_border0; cbn; intros H; injection H; intros; congruence.
Qed.

Lemma stable_wf : stable wf.
Proof.
  intros w l [Hb Hc]. split; [| exact Hc].
  apply (boundaries_current_frame w l (cursor_x w) (cursor_y w)) in Hb.
  destruct w; exact Hb.
Qed.

Lemma update_boundaries_current w :
  boundaries_current (fst (update_boundaries w)).
Proof.
  unfold boundaries_current, update_boundaries, modify. fields w.
  destruct draw_border0; reflexivity.
Qed.


Lemma update_boundaries_id w :
  boundaries_current w -> fst (update_boundaries w) = w.
Proof.
  intros H. exact H.
Qed.

Lemma update_boundaries_wf :
  hoare wf update_boundaries (fun _ => wf) (fun _ => wf).
Proof.
  intros w Hw. pose proof (update_boundaries_id w (proj1 Hw)) as H.
  unfold update_boundaries, modify in *. cbn in *. rewrite H. exact Hw.
Qed.

Lemma set_cursor_wf w x y :
  wf w -> cursor_position_in_bounds w x y = true ->
  wf (set_cursor (Some x) (Some y) w).
Proof.
  intros [Hb Hc] Hxy. split.
  - apply (boundaries_current_frame w (stdscr w) (Some x) (Some y)) in Hb.
    destruct w; exact Hb.
  - intros x' y' Hx Hy. cbn in Hx, Hy. injection Hx as <-. injection Hy as <-.
    exact Hxy.
Qed.

Lemma unset_cursor_wf w :
  boundaries_current w -> wf (set_cursor None None w).
Proof.
  intros Hb. split.
  - apply (boundaries_current_frame w (stdscr w) None None) in Hb.
    destruct w; exact Hb.
  - intros x y Hx. discriminate Hx.
Qed.

Lemma update_cursor_wf x y :
  hoare wf (update_cursor x y) (fun _ => wf) (fun _ => wf).
Proof.
  unfold update_cursor. apply hoare_gets. intros ok.
  set (P := fun w => wf w /\ cursor_position_in_bounds w x y = true).
  assert (HP : stable P).
  { intros w l [Hw Hxy]. split; [apply stable_wf, Hw | exact Hxy]. }
  destruct ok; cbn [negb].
  2: { apply hoare_raise. tauto. }
  apply hoare_weaken with (P' := P) (Q' := fun _ => wf) (E' := fun _ => wf);
    auto.
  apply hoare_gets_drop. intros cx. apply hoare_gets_drop. intros cy.
  eapply hoare_bind with (R := fun _ => P).
  { destruct cx as [cx |]; [destruct cy as [cy |] |].
    - apply hoare_gets_drop. intros ch.
      apply hoare_emit_last; auto. intros w Hw. apply Hw.
    - apply hoare_ret. auto.
    - apply hoare_ret. auto. }
  intros []. apply hoare_gets_drop. intros ch.
  apply hoare_emit_then; auto. { intros w Hw. apply Hw. }
  eapply hoare_bind with (R := fun _ => wf).
  - apply hoare_modify. intros w [Hw Hxy]. apply set_cursor_wf; assumption.
  - intros []. apply hoare_emit_last; auto. apply stable_wf.
Qed.

Lemma update_cursor_dyn_wf x y :
  hoare wf (update_cursor_dyn x y) (fun _ => wf) (fun _ => wf).
Proof.
  unfold update_cursor_dyn. apply hoare_gets_drop. intros r.
  destruct r as [e | b]; [apply hoare_raise; auto |].
  destruct x as [x |]; [destruct y as [y |] |];
    [apply update_cursor_wf | apply hoare_raise; auto ..].
Qed.

Lemma draw_box_stable (P : Window -> Prop) E :
  stable P -> (forall w, P w -> E curses_error w) ->
  hoare P draw_box (fun _ => P) E.
Proof.
  intros HP HE. unfold draw_box.
  apply hoare_gets_drop. intros y0. apply hoare_gets_drop. intros y1.
  eapply hoare_bind with (R := fun _ => P).
  { apply hoare_for_each. intros y.
    apply hoare_gets_drop. intros xl. apply hoare_emit_then; auto.
    apply hoare_gets_drop. intros xr. apply hoare_emit_last; auto. }
  intros [].
  apply hoare_gets_drop. intros x0. apply hoare_gets_drop. intros x1.
  apply hoare_for_each. intros x.
  apply hoare_gets_drop. intros yt. apply hoare_emit_then; auto.
  apply hoare_gets_drop. intros yb. apply hoare_emit_last; auto.
Qed.

Lemma move_cursor_wf d n :
  hoare wf (move_cursor d n) (fun _ => wf) (fun _ => wf).
Proof.
  unfold move_cursor. destruct (n <? 1); [apply hoare_raise; auto |].
  apply hoare_gets_drop. intros c.
  destruct c as [e | [x y]]; [apply hoare_raise; auto |].
  apply hoare_gets_drop. intros r.
  destruct r as [e | b]; [apply hoare_raise; auto |].
  destruct b; [| apply hoare_ret; auto].
  destruct x as [x |]; [destruct y as [y |] |];
    [| apply hoare_ret; auto ..].
  eapply hoare_bind; [apply update_cursor_wf |].
  intros []. apply hoare_ret. auto.
Qed.

(** [draw_initial_screen] from a window whose cursor fits the boundaries of
    its configuration, stored or not yet. *)
Lemma draw_initial_screen_wf (J : Window -> Prop) b :
  stable J ->
  (forall w, J w -> wf (fst (update_boundaries w))) ->
  hoare J (draw_initial_screen b) (fun _ => wf) (fun _ w => J w \/ wf w).
Proof.
  intros HJ Hwf. unfold draw_initial_screen.
  assert (HE : forall w, J w -> J w \/ wf w) by auto.
  assert (HE' : forall w, wf w -> J w \/ wf w) by auto.
  pose proof stable_wf as Hs.
  do 3 (apply hoare_emit_then; auto).
  apply hoare_gets_drop. intros p. apply hoare_emit_then; auto.
  apply hoare_gets_drop. intros c. apply hoare_emit_then; auto.
  eapply hoare_bind with (R := fun _ => wf).
  { apply hoare_modify. intros w Hw. apply (Hwf w Hw). }
  intros []. apply hoare_gets_drop. intros m.
  eapply hoare_bind with (R := fun _ => wf).
  { destruct m; [apply hoare_emit_last | apply hoare_ret]; auto. }
  intros []. apply hoare_gets_drop. intros db.
  eapply hoare_bind with (R := fun _ => wf).
  { destruct db; [apply draw_box_stable | apply hoare_ret]; auto. }
  intros [].
  eapply hoare_bind with (R := fun _ => wf).
  2: { intros []. apply hoare_emit_last; auto. }
  destruct b.
  - eapply hoare_bind with (R := fun _ => wf).
    { apply hoare_modify. intros w Hw. apply unset_cursor_wf, Hw. }
    intros []. apply hoare_gets_drop. intros x. apply hoare_gets_drop.
    intros y. eapply hoare_weaken; [apply update_cursor_wf | ..]; auto.
  - apply hoare_gets_drop. intros x. apply hoare_gets_drop. intros y.
    eapply hoare_weaken; [apply update_cursor_dyn_wf | ..]; auto.
Qed.

Lemma run_wf m w : wf w -> wf (run m w).
Proof.
  intros Hw. destruct m; cbn [run].
  - apply (hoare_fst _ wf); [apply update_boundaries_wf | exact Hw].
  - apply (hoare_fst _ wf); [| exact Hw].
    apply draw_box_stable; [apply stable_wf | auto].
  - apply (hoare_fst _ wf); [apply update_cursor_wf | exact Hw].
  - apply (hoare_fst _ wf); [apply move_cursor_wf | exact Hw].
  - apply (hoare_fst _ wf); [| exact Hw].
    eapply hoare_weaken;
      [apply (draw_initial_screen_wf wf); [apply stable_wf |] | ..]; auto.
    + intros w' Hw'. apply (hoare_fst _ wf); [apply update_boundaries_wf |].
      exact Hw'.
    + cbn. tauto.
Qed.

Lemma init_wf scr cx cy bt bb bl br pc cc pp cp msg db w :
  __init__ scr cx cy bt bb bl br pc cc pp cp msg db = (w, inr tt) -> wf w.
Proof.
  unfold __init__. intros H.
  pose proof (draw_initial_screen_wf
                (fun w => cursor_x w = None /\ cursor_y w = None) true) as T.
  match type of H with draw_initial_screen true ?w0 = _ =>
    specialize (T ltac:(intros ? ? ?; assumption)) ;
    assert (T' := fun K => T K w0 (conj eq_refl eq_refl)) end.
  rewrite H in T'. apply T'. intros w1 [Hx Hy]. split.
  - apply update_boundaries_current.
  - intros x y Hx'. unfold update_boundaries, modify in Hx'. cbn in Hx'.
    destruct (draw_border w1); cbn in Hx'; congruence.
Qed.

Lemma reachable_wf w : reachable w -> wf w.
Proof.
  induction 1 as [? ? ? ? ? ? ? ? ? ? ? ? ? w H | w m _ IH].
  - eapply init_wf, H.
  - apply run_wf, IH.
Qed.

(** ** What the methods compute *)

Lemma emit_reliable c w :
  reliable -> emit c w = (set_stdscr (stdscr w ++ [c]) w, inr tt).
Proof. intros H. unfold emit. rewrite H. reflexivity. Qed.

Lemma update_cursor_out w x y :
  cursor_position_in_bounds w x y = false ->
  update_cursor x y w = (w, inl (ValueError OutOfBounds)).
Proof.
  intros H. unfold update_cursor, bind, gets. rewrite H. reflexivity.
Qed.

Lemma update_cursor_in w x y :
  reliable ->
  cursor_position_in_bounds w x y = true ->
  update_cursor x y w
  = (set_stdscr (stdscr w ++ cursor_paints w x y)
       (set_cursor (Some x) (Some y) w), inr tt).
Proof.
  intros Hr H. unfold update_cursor, cursor_paints, bind, gets, modify, ret.
  rewrite H. cbn [negb].
  destruct (cursor_x w) as [cx |] eqn:Hx;
    [destruct (cursor_y w) as [cy |] eqn:Hy |];
    rewrite !emit_reliable by exact Hr; cbn;
    unfold set_stdscr, set_cursor; cbn;
    rewrite <- ?app_assoc; reflexivity.
Qed.

Lemma update_cursor_returns w x y w' :
  update_cursor x y w = (w', inr tt) ->
  cursor_position_in_bounds w x y = true /\
  cursor_x w' = Some x /\ cursor_y w' = Some y.
Proof.
  intros H. destruct (cursor_position_in_bounds w x y) eqn:Hb.
  - split; [reflexivity |].
    revert H. unfold update_cursor, bind, gets, modify, emit, ret.
    rewrite Hb. cbn [negb].
    destruct (cursor_x w), (cursor_y w); cbn;
      repeat match goal with
             | |- context [accepts ?h ?c] => destruct (accepts h c)
             end; cbn; intros H; inversion H; subst; cbn; auto.
  - rewrite (update_cursor_out _ _ _ Hb) in H. discriminate H.
Qed.

Lemma candidate_placed w d n cx cy :
  cursor_x w = Some cx -> cursor_y w = Some cy ->
  candidate w (Member d) n
  = inr (Some (fst (offset d n cx cy)), Some (snd (offset d n cx cy))).
Proof.
  intros Hx Hy. unfold candidate, sub_dyn, add_dyn. rewrite Hx, Hy.
  destruct d; reflexivity.
Qed.

Lemma move_cursor_blocked w d n cx cy :
  cursor_x w = Some cx -> cursor_y w = Some cy -> 1 <= n ->
  cursor_position_in_bounds w
    (fst (offset d n cx cy)) (snd (offset d n cx cy)) = false ->
  move_cursor (Member d) n w = (w, inr false).
Proof.
  intros Hx Hy Hn Hb. unfold move_cursor.
  destruct (n <? 1) eqn:Hlt; [apply Z.ltb_lt in Hlt; lia |].
  unfold bind, gets. rewrite (candidate_placed w d n cx cy Hx Hy).
  cbn [cursor_position_in_bounds_dyn]. rewrite Hb. reflexivity.
Qed.

Lemma move_cursor_accepted w d n cx cy :
  reliable ->
  cursor_x w = Some cx -> cursor_y w = Some cy -> 1 <= n ->
  cursor_position_in_bounds w
    (fst (offset d n cx cy)) (snd (offset d n cx cy)) = true ->
  move_cursor (Member d) n w
  = (set_stdscr
       (stdscr w
        ++ cursor_paints w (fst (offset d n cx cy)) (snd (offset d n cx cy)))
       (set_cursor (Some (fst (offset d n cx cy)))
          (Some (snd (offset d n cx cy))) w),
     inr true).
Proof.
  intros Hr Hx Hy Hn Hb. unfold move_cursor.
  destruct (n <? 1) eqn:Hlt; [apply Z.ltb_lt in Hlt; lia |].
  unfold bind, gets. rewrite (candidate_placed w d n cx cy Hx Hy).
  cbn [cursor_position_in_bounds_dyn]. rewrite Hb.
  rewrite (update_cursor_in _ _ _ Hr Hb). reflexivity.
Qed.

(** ** The claims on the cursor *)

(** C1.  In every reachable window a placed cursor lies inside the inner
    rectangle, and so it does after any further method call, whether the
    call returns or raises.  The bounds test comes before any mutation:
    when the target is out of bounds, [update_cursor] raises and
    [move_cursor] returns False with the window, screen included, exactly
    as it was. *)
Theorem cursor_inside_inner_rectangle w :
  reachable w ->
  (forall x y, cursor_x w = Some x -> cursor_y w = Some y ->
     cursor_position_in_bounds w x y = true)
  /\ (forall m x y,
        cursor_x (run m w) = Some x -> cursor_y (run m w) = Some y ->
        cursor_position_in_bounds (run m w) x y = true)
  /\ (forall x y, cursor_position_in_bounds w x y = false ->
        update_cursor x y w = (w, inl (ValueError OutOfBounds)))
  /\ (forall d n cx cy,
        cursor_x w = Some cx -> cursor_y w = Some cy -> 1 <= n ->
        cursor_position_in_bounds w
          (fst (offset d n cx cy)) (snd (offset d n cx cy)) = false ->
        move_cursor (Member d) n w = (w, inr false)).
Proof.
  intros Hr. pose proof (reachable_wf w Hr) as Hw. repeat split.
  - exact (proj2 Hw).
  - intros m. exact (proj2 (run_wf m w Hw)).
  - apply update_cursor_out.
  - intros d n cx cy. apply move_cursor_blocked.
Qed.

(** C2.  On a screen that accepts the paints, a move of distance >= 1 from
    a placed cursor whose candidate (the position offset along one axis)
    is inside the inner rectangle paints the trail and the head, makes the
    candidate the current position and returns True.  In the scenario
    (inner rectangle x in [2,10], y in [2,5], cursor at (3,3)):
    move(LEFT,1) gives (2,3); move(LEFT,1) again and move(DOWN,10) are
    rejected and leave (2,3). *)
Theorem move_cursor_moves :
  reliable ->
  (forall w d n cx cy,
     cursor_x w = Some cx -> cursor_y w = Some cy -> 1 <= n ->
     cursor_position_in_bounds w
       (fst (offset d n cx cy)) (snd (offset d n cx cy)) = true ->
     move_cursor (Member d) n w
     = (set_stdscr
          (stdscr w
           ++ cursor_paints w
                (fst (offset d n cx cy)) (snd (offset d n cx cy)))
          (set_cursor (Some (fst (offset d n cx cy)))
             (Some (snd (offset d n cx cy))) w),
        inr true))
  /\ (let r1 := move_cursor (Member LEFT) 1 scenario in
      let r2 := move_cursor (Member LEFT) 1 (fst r1) in
      let r3 := move_cursor (Member DOWN) 10 (fst r2) in
      (cursor_min_x scenario, cursor_max_x scenario,
       cursor_min_y scenario, cursor_max_y scenario) = (2, 10, 2, 5)
      /\ (cursor_x scenario, cursor_y scenario) = (Some 3, Some 3)
      /\ snd r1 = inr true
      /\ (cursor_x (fst r1), cursor_y (fst r1)) = (Some 2, Some 3)
      /\ r2 = (fst r1, inr false)
      /\ r3 = (fst r1, inr false)).
Proof.
  intros Hr. split.
  - intros w d n cx cy. apply move_cursor_accepted, Hr.
  - cbv zeta.
    rewrite (move_cursor_accepted scenario LEFT 1 3 3 Hr)
      by (reflexivity || lia).
    cbn [fst snd].
    match goal with
    | |- context [move_cursor (Member LEFT) 1 ?w1] =>
        rewrite (move_cursor_blocked w1 LEFT 1 2 3)
          by (reflexivity || lia);
        cbn [fst snd];
        rewrite (move_cursor_blocked w1 DOWN 10 2 3)
          by (reflexivity || lia)
    end.
    repeat split.
Qed.

(** C5.  A move from a placed cursor whose candidate falls outside the
    inner rectangle is rejected without an exception: it returns False and
    the window is the same, cursor and screen included, so no cell is
    painted; the same move again gives the same result and state. *)
Theorem blocked_move_is_rejected w d n cx cy :
  cursor_x w = Some cx -> cursor_y w = Some cy -> 1 <= n ->
  cursor_position_in_bounds w
    (fst (offset d n cx cy)) (snd (offset d n cx cy)) = false ->
  move_cursor (Member d) n w = (w, inr false)
  /\ move_cursor (Member d) n (fst (move_cursor (Member d) n w))
     = (w, inr false).
Proof.
  intros Hx Hy Hn Hb.
  rewrite (move_cursor_blocked w d n cx cy Hx Hy Hn Hb). cbn [fst].
  split; [reflexivity | apply (move_cursor_blocked w d n cx cy); assumption].
Qed.

(** C6.  [update_cursor x y] on a position outside the inner rectangle
    raises the out-of-bounds ValueError and leaves the window as it was (an
    unset cursor stays unset); whenever it returns, the position was
    inside and is the current position; and on a screen that accepts the
    paints it returns for every position inside. *)
Theorem update_cursor_succeeds_iff_in_bounds w x y :
  (cursor_position_in_bounds w x y = false ->
   update_cursor x y w = (w, inl (ValueError OutOfBounds)))
  /\ (forall w', update_cursor x y w = (w', inr tt) ->
        cursor_position_in_bounds w x y = true
        /\ cursor_x w' = Some x /\ cursor_y w' = Some y)
  /\ (reliable -> cursor_position_in_bounds w x y = true ->
      update_cursor x y w
      = (set_stdscr (stdscr w ++ cursor_paints w x y)
           (set_cursor (Some x) (Some y) w), inr tt)).
Proof.
  repeat split.
  - apply update_cursor_out.
  - eapply update_cursor_returns; eassumption.
  - eapply update_cursor_returns; eassumption.
  - eapply update_cursor_returns; eassumption.
  - apply update_cursor_in.
Qed.

(** C8.  A move with distance < 1, whatever the direction, and a move with
    an unrecognized direction raise ValueError (the distance is tested
    first) and leave the window as it was. *)
Theorem move_cursor_invalid_argument w direction n :
  (n < 1 ->
   move_cursor direction n w = (w, inl (ValueError (BadDistance n))))
  /\ (forall t, 1 <= n ->
        move_cursor (Other t) n w = (w, inl (ValueError (BadDirection t))))
  /\ (forall t, exists m,
        move_cursor (Other t) n w = (w, inl (ValueError m))).
Proof.
  assert (H1 : forall d, n < 1 ->
            move_cursor d n w = (w, inl (ValueError (BadDistance n)))).
  { intros d Hn. unfold move_cursor.
    destruct (n <? 1) eqn:Hlt; [reflexivity | apply Z.ltb_ge in Hlt; lia]. }
  assert (H2 : forall t, 1 <= n ->
            move_cursor (Other t) n w
            = (w, inl (ValueError (BadDirection t)))).
  { intros t Hn. unfold move_cursor.
    destruct (n <? 1) eqn:Hlt; [apply Z.ltb_lt in Hlt; lia | reflexivity]. }
  split; [apply H1 | split; [exact H2 |]].
  intros t. destruct (Z_lt_le_dec n 1) as [Hn | Hn]; eauto.
Qed.

(** ** The claims on the boundaries *)

(** C3, as the code has it.  [update_boundaries] never fails; the outer
    rectangle is [buffer_left, COLS-2-buffer_right] x
    [buffer_top+1, LINES-1-buffer_bottom] (one row is kept for the message
    and the last column is left out); the inner rectangle is the outer one
    shrunk by one on every side with a border, and the outer one
    without. *)
Theorem update_boundaries_rectangles w :
  let w' := fst (update_boundaries w) in
  snd (update_boundaries w) = inr tt
  /\ (min_x w', max_x w', min_y w', max_y w')
     = (buffer_left w, COLS - 2 - buffer_right w,
        buffer_top w + 1, LINES - 1 - buffer_bottom w)
  /\ (cursor_min_x w', cursor_max_x w', cursor_min_y w', cursor_max_y w')
     = (if draw_border w
        then (min_x w' + 1, max_x w' - 1, min_y w' + 1, max_y w' - 1)
        else (min_x w', max_x w', min_y w', max_y w')).
Proof.
  unfold update_boundaries, modify. cbn.
  destruct (draw_border w); repeat split.
Qed.

(** C9.  When the outer rectangle computed by [update_boundaries] is not
    empty: with a border the inner rectangle is strictly inside it (its
    bounds are strictly between the outer bounds, every cell the cursor
    may take is strictly inside, and the outer corner is not a cursor
    cell); without a border the two rectangles are equal. *)
Theorem inner_within_outer w :
  let w' := fst (update_boundaries w) in
  min_x w' <= max_x w' -> min_y w' <= max_y w' ->
  if draw_border w
  then min_x w' < cursor_min_x w' /\ cursor_max_x w' < max_x w'
       /\ min_y w' < cursor_min_y w' /\ cursor_max_y w' < max_y w'
       /\ (forall x y, cursor_position_in_bounds w' x y = true ->
             min_x w' < x < max_x w' /\ min_y w' < y < max_y w')
       /\ cursor_position_in_bounds w' (min_x w') (min_y w') = false
  else (cursor_min_x w', cursor_max_x w', cursor_min_y w', cursor_max_y w')
       = (min_x w', max_x w', min_y w', max_y w').
Proof.
  unfold update_boundaries, modify, cursor_position_in_bounds. cbn.
  destruct (draw_border w); cbn; [| reflexivity].
  intros Hx Hy. repeat split; try lia.
  - destruct (_ <=? x) eqn:E1, (x <=? _) eqn:E2; cbn in H; try discriminate.
    lia.
  - destruct (_ <=? x) eqn:E1, (x <=? _) eqn:E2; cbn in H; try discriminate.
    lia.
  - destruct (_ <=? x), (x <=? _); cbn in H; try discriminate.
    destruct (_ <=? y) eqn:E1, (y <=? _) eqn:E2; cbn in H; try discriminate.
    lia.
  - destruct (_ <=? x), (x <=? _); cbn in H; try discriminate.
    destruct (_ <=? y) eqn:E1, (y <=? _) eqn:E2; cbn in H; try discriminate.
    lia.
  - destruct (buffer_left w + 1 <=? buffer_left w) eqn:E; [| reflexivity].
    apply Z.leb_le in E. lia.
Qed.

(** ** Rules that follow the screen *)

Lemma stable_grows p (P : Window -> Prop) : stable P -> grows p P.
Proof. intros H w c _ Hw. apply H, Hw. Qed.

Lemma grows_logged p marked w0 wref : grows p (logged p marked w0 wref).
Proof.
  intros w c Hc [l [-> Hl]]. exists (l ++ [c]). split.
  - cbn. rewrite app_assoc. reflexivity.
  - rewrite filter_app. cbn. rewrite Hc, app_nil_r. exact Hl.
Qed.

Lemma hoare_emit_g p c (P : Window -> Prop) :
  grows p P -> p c = false ->
  hoare P (emit c) (fun _ => P)
    (fun e w => e = curses_error /\ ~ reliable /\ P w).
Proof.
  intros Hg Hc w Hw. unfold emit.
  destruct (accepts (stdscr w) c) eqn:Ha; [apply Hg; assumption |].
  split; [reflexivity | split; [| apply Hg; assumption]].
  intros Hr. rewrite Hr in Ha. discriminate Ha.
Qed.

Lemma hoare_emit_last_g p c (P : Window -> Prop) Q E :
  grows p P -> p c = false ->
  (forall w, P w -> Q tt w) ->
  (forall w, P w -> ~ reliable -> E curses_error w) ->
  hoare P (emit c) Q E.
Proof.
  intros Hg Hc HQ HE.
  eapply hoare_weaken; [apply (hoare_emit_g p c P Hg Hc) | | |]; cbn; auto.
  - intros []. auto.
  - intros e w [-> [Hr Hw]]. auto.
Qed.

Lemma hoare_emit_then_g {B} p c (k : unit -> M B) (P : Window -> Prop) Q E :
  grows p P -> p c = false ->
  (forall w, P w -> ~ reliable -> E curses_error w) ->
  hoare P (k tt) Q E ->
  hoare P (bind (emit c) k) Q E.
Proof.
  intros Hg Hc HE Hk. eapply hoare_bind.
  - apply (hoare_emit_last_g p c P (fun _ => P) E); auto.
  - intros []. exact Hk.
Qed.

Lemma draw_box_g p (P : Window -> Prop) E :
  grows p P ->
  (forall c, is_cursor_paint c = false -> p c = false) ->
  (forall w, P w -> ~ reliable -> E curses_error w) ->
  hoare P draw_box (fun _ => P) E.
Proof.
  intros HP Hp HE. unfold draw_box.
  apply hoare_gets_drop. intros y0. apply hoare_gets_drop. intros y1.
  eapply hoare_bind with (R := fun _ => P).
  { apply hoare_for_each. intros y.
    apply hoare_gets_drop. intros xl.
    apply (hoare_emit_then_g p); auto.
    apply hoare_gets_drop. intros xr.
    apply (hoare_emit_last_g p); auto. }
  intros [].
  apply hoare_gets_drop. intros x0. apply hoare_gets_drop. intros x1.
  apply hoare_for_each. intros x.
  apply hoare_gets_drop. intros yt. apply (hoare_emit_then_g p); auto.
  apply hoare_gets_drop. intros yb. apply (hoare_emit_last_g p); auto.
Qed.

(** [draw_initial_screen] in two parts: the decoration, which keeps [P]
    until the boundaries are set and [P'] after, and the cursor. *)
Lemma draw_initial_screen_parts p (b : bool) (P P' R : Window -> Prop) Q E :
  grows p P -> grows p P' ->
  (forall c, is_cursor_paint c = false -> p c = false) ->
  (forall w, P w -> P' (fst (update_boundaries w))) ->
  (forall w, P w -> ~ reliable -> E curses_error w) ->
  (forall w, P' w -> ~ reliable -> E curses_error w) ->
  hoare P'
    (if b
     then modify (set_cursor None None) ;;
          x <- gets initial_cursor_x ;;
          y <- gets initial_cursor_y ;;
          update_cursor x y
     else x <- gets cursor_x ;;
          y <- gets cursor_y ;;
          update_cursor_dyn x y)
    (fun _ => R) E ->
  hoare R (emit refresh) Q E ->
  hoare P (draw_initial_screen b) Q E.
Proof.
  intros HP HP' Hp Hub HE HE' Hcur Hend. unfold draw_initial_screen.
  do 3 (apply (hoare_emit_then_g p); auto).
  apply hoare_gets_drop. intros pp. apply (hoare_emit_then_g p); auto.
  apply hoare_gets_drop. intros cp. apply (hoare_emit_then_g p); auto.
  eapply hoare_bind with (R := fun _ => P').
  { apply hoare_modify. intros w Hw. apply (Hub w Hw). }
  intros []. apply hoare_gets_drop. intros m.
  eapply hoare_bind with (R := fun _ => P').
  { destruct m; [apply (hoare_emit_last_g p) | apply hoare_ret]; auto. }
  intros []. apply hoare_gets_drop. intros db.
  eapply hoare_bind with (R := fun _ => P').
  { destruct db; [apply (draw_box_g p) | apply hoare_ret]; auto. }
  intros [].
  eapply hoare_bind; [exact Hcur |]. intros []. exact Hend.
Qed.

(** ** Drawing the initial screen *)

Lemma not_cursor_paint_not_trail c :
  is_cursor_paint c = false -> is_trail_paint c = false.
Proof.
  destruct c as [| v | | n fg bg | y x s [a |] |]; cbn;
    intros H; (discriminate H || reflexivity).
Qed.

Lemma update_boundaries_eq w :
  fst (update_boundaries w)
  = set_boundaries (buffer_left w) (buffer_top w + 1)
      (COLS - 2 - buffer_right w) (LINES - 1 - buffer_bottom w)
      (if draw_border w then buffer_left w + 1 else buffer_left w)
      (if draw_border w
       then COLS - 2 - buffer_right w - 1 else COLS - 2 - buffer_right w)
      (if draw_border w then buffer_top w + 1 + 1 else buffer_top w + 1)
      (if draw_border w
       then LINES - 1 - buffer_bottom w - 1 else LINES - 1 - buffer_bottom w)
      w.
Proof.
  unfold update_boundaries, modify. cbn. destruct (draw_border w); reflexivity.
Qed.

Lemma logged_start p w : logged p [] w w w.
Proof.
  exists []. split; [| reflexivity]. rewrite app_nil_r. destruct w; reflexivity.
Qed.

Lemma logged_update_boundaries p marked w0 w :
  logged p marked w0 w0 w ->
  logged p marked w0 (fst (update_boundaries w0))
    (fst (update_boundaries w)).
Proof.
  intros [l [-> Hl]]. exists l. split; [| exact Hl].
  rewrite !update_boundaries_eq. reflexivity.
Qed.


(** With [reset_cursor] true, on a screen that accepts the calls and with
    initial coordinates inside the inner rectangle of the configuration. *)
Lemma draw_initial_screen_reset w :
  reliable ->
  let wb := fst (update_boundaries w) in
  cursor_position_in_bounds wb
    (initial_cursor_x w) (initial_cursor_y w) = true ->
  exists l,
    draw_initial_screen true w
    = (set_stdscr (stdscr w ++ l)
         (set_cursor (Some (initial_cursor_x w))
            (Some (initial_cursor_y w)) wb), inr tt)
    /\ filter is_trail_paint l = [].
Proof.
  intros Hr wb Hb.
  set (R := logged is_trail_paint [] w
              (set_cursor (Some (initial_cursor_x w))
                 (Some (initial_cursor_y w)) wb)).
  assert (H : hoare (logged is_trail_paint [] w w)
                (draw_initial_screen true)
                (fun _ => R) (fun _ _ => False)).
  { apply (draw_initial_screen_parts is_trail_paint true _
             (logged is_trail_paint [] w wb) R);
      try apply grows_logged; try (intros; contradiction).
    - apply not_cursor_paint_not_trail.
    - intros w1. apply logged_update_boundaries.
    - intros w1 [l [-> Hl]]. unfold bind, modify, gets. cbn [fst snd].
      rewrite update_cursor_in; [| exact Hr | ].
      + exists (l ++ [addstr (initial_cursor_y w) (initial_cursor_x w)
                        (curr_point_char w) (Some 2); refresh]).
        split.
        * subst wb. rewrite update_boundaries_eq. cbn.
          unfold cursor_paints. cbn. rewrite <- app_assoc. reflexivity.
        * rewrite filter_app, Hl. reflexivity.
      + subst wb. rewrite update_boundaries_eq in Hb |- *. exact Hb.
    - apply (hoare_emit_last_g is_trail_paint); try reflexivity;
        try (intros; contradiction); auto.
      apply grows_logged. }
  specialize (H w (logged_start _ w)).
  destruct (draw_initial_screen true w) as [w' [e | []]]; [contradiction |].
  destruct H as [l [-> Hl]]. exists l. auto.
Qed.

Lemma update_cursor_dyn_some x y w :
  update_cursor_dyn (Some x) (Some y) w = update_cursor x y w.
Proof. reflexivity. Qed.



(** ** The claims on the initial screen *)



(** C10.  With no explicit initial coordinates, the initial position is
    (buffer_left + 1, buffer_top + 2) with a border and
    (buffer_left, buffer_top + 1) without: the top-left corner of the inner
    rectangle.  So whenever the inner rectangle is not empty it is in
    bounds, and on a screen that accepts the calls the constructor returns
    with the cursor placed there. *)
Theorem default_initial_position_in_bounds
    scr bt bb bl br pc cc pp cp msg db :
  let w0 := init_attributes scr None None bt bb bl br pc cc pp cp msg db in
  let wb := fst (update_boundaries w0) in
  (initial_cursor_x w0, initial_cursor_y w0)
  = (if db then (bl + 1, bt + 2) else (bl, bt + 1))
  /\ (initial_cursor_x w0, initial_cursor_y w0)
     = (cursor_min_x wb, cursor_min_y wb)
  /\ (cursor_min_x wb <= cursor_max_x wb ->
      cursor_min_y wb <= cursor_max_y wb ->
      cursor_position_in_bounds wb
        (initial_cursor_x w0) (initial_cursor_y w0) = true
      /\ (reliable ->
          exists l,
            __init__ scr None None bt bb bl br pc cc pp cp msg db
            = (set_stdscr (scr ++ l)
                 (set_cursor (Some (cursor_min_x wb))
                    (Some (cursor_min_y wb)) wb), inr tt))).
Proof.
  intros w0 wb.
  assert (H1 : (initial_cursor_x w0, initial_cursor_y w0)
               = (if db then (bl + 1, bt + 2) else (bl, bt + 1))).
  { subst w0. cbn. destruct db; reflexivity. }
  assert (Ex : initial_cursor_x w0 = cursor_min_x wb).
  { subst wb w0. rewrite update_boundaries_eq. cbn. destruct db; reflexivity. }
  assert (Ey : initial_cursor_y w0 = cursor_min_y wb).
  { subst wb w0. rewrite update_boundaries_eq. cbn. destruct db; lia. }
  split; [exact H1 | split; [rewrite Ex, Ey; reflexivity |]].
  intros Hx Hy.
  assert (Hb : cursor_position_in_bounds wb
                 (initial_cursor_x w0) (initial_cursor_y w0) = true).
  { rewrite Ex, Ey. unfold cursor_position_in_bounds.
    rewrite !Z.leb_refl.
    destruct (Z.leb_spec (cursor_min_x wb) (cursor_max_x wb)); [| lia].
    destruct (Z.leb_spec (cursor_min_y wb) (cursor_max_y wb)); [| lia].
    reflexivity. }
  split; [exact Hb |]. intros Hr.
  destruct (draw_initial_screen_reset w0 Hr Hb) as [l [E _]].
  exists l. rewrite <- Ex, <- Ey. exact E.
Qed.

(** ** Further properties: the border *)

Lemma set_stdscr_same w : set_stdscr (stdscr w) w = w.
Proof. destruct w; reflexivity. Qed.

Lemma emit_all_app h a b :
  emit_all accepts h (a ++ b)
  = (if snd (emit_all accepts h a)
     then emit_all accepts (fst (emit_all accepts h a)) b
     else emit_all accepts h a).
Proof.
  revert h. induction a as [| c a IH]; intros h; cbn.
  - reflexivity.
  - destruct (accepts h c); [apply IH | reflexivity].
Qed.

Lemma emit_all_reliable h cs :
  reliable -> emit_all accepts h cs = (h ++ cs, true).
Proof.
  intros Hr. revert h. induction cs as [| c cs IH]; intros h; cbn.
  - rewrite app_nil_r. reflexivity.
  - rewrite Hr, IH, <- app_assoc. reflexivity.
Qed.

(** A loop whose body issues the calls [calls i] on the screen. *)
Lemma for_each_emits (calls : Z -> list call) body w0 :
  (forall i h,
     body i (set_stdscr h w0)
     = (set_stdscr (fst (emit_all accepts h (calls i))) w0,
        if snd (emit_all accepts h (calls i))
        then inr tt else inl curses_error)) ->
  forall l h,
    for_each l body (set_stdscr h w0)
    = (set_stdscr (fst (emit_all accepts h (flat_map calls l))) w0,
       if snd (emit_all accepts h (flat_map calls l))
       then inr tt else inl curses_error).
Proof.
  intros Hb. induction l as [| i l IH]; intros h; cbn [for_each flat_map].
  - reflexivity.
  - unfold bind. rewrite Hb, emit_all_app.
    destruct (snd (emit_all accepts h (calls i))) eqn:E; cbv beta iota;
      [apply IH | rewrite E; reflexivity].
Qed.

Lemma draw_box_emits w h :
  draw_box (set_stdscr h w)
  = (set_stdscr (fst (emit_all accepts h (box_calls w))) w,
     if snd (emit_all accepts h (box_calls w))
     then inr tt else inl curses_error).
Proof.
  unfold draw_box, box_calls. unfold bind at 1 2. unfold gets at 1 2.
  cbn [min_y max_y set_stdscr]. unfold bind at 1.
  rewrite (for_each_emits
             (fun y => [addstr y (min_x w) "|" None;
                        addstr y (max_x w) "|" None])).
  2: { intros i h0. unfold bind, gets, emit. cbn.
       destruct (accepts h0 _); [| reflexivity].
       destruct (accepts _ _); reflexivity. }
  rewrite emit_all_app.
  destruct (snd (emit_all accepts h _)) eqn:E; cbv beta iota;
    [| rewrite E; reflexivity].
  unfold bind, gets. cbn [min_x max_x set_stdscr].
  apply (for_each_emits
           (fun x => [addstr (min_y w) x "-" None;
                      addstr (max_y w) x "-" None])).
  intros i h0. unfold bind, gets, emit. cbn.
  destruct (accepts h0 _); [| reflexivity].
  destruct (accepts _ _); reflexivity.
Qed.

(** X1.  [draw_box] issues the calls of [box_calls] in order, stops at the
    first one the screen refuses with the exception of the screen, and
    changes no attribute of the window; when the screen accepts them all it
    returns with exactly these calls added. *)
Theorem draw_box_issues_box_calls w :
  draw_box w
  = (set_stdscr (fst (emit_all accepts (stdscr w) (box_calls w))) w,
     if snd (emit_all accepts (stdscr w) (box_calls w))
     then inr tt else inl curses_error)
  /\ (reliable ->
      draw_box w = (set_stdscr (stdscr w ++ box_calls w) w, inr tt)).
Proof.
  assert (H := draw_box_emits w (stdscr w)). rewrite set_stdscr_same in H.
  split; [exact H |]. intros Hr. rewrite H, emit_all_reliable by exact Hr.
  reflexivity.
Qed.

Lemma in_range i lo hi : In i (range lo hi) <-> lo <= i < hi.
Proof.
  unfold range. rewrite in_map_iff. split.
  - intros [k [<- Hk]]. apply in_seq in Hk. lia.
  - intros H. exists (Z.to_nat (i - lo)). split; [lia |].
    apply in_seq. lia.
Qed.

Lemma range_length lo hi : List.length (range lo hi) = Z.to_nat (hi - lo).
Proof. unfold range. rewrite length_map, length_seq. reflexivity. Qed.

Lemma flat_map_pair_length {A} (f g : Z -> A) l :
  List.length (flat_map (fun i => [f i; g i]) l) = (2 * List.length l)%nat.
Proof. induction l as [| i l IH]; cbn; [reflexivity | rewrite IH; lia]. Qed.

(** X2.  Every call of the border is an uncoloured write on the perimeter of
    the outer rectangle; with the boundaries of the configuration and a
    border, none of these cells is one the cursor may take. *)
Theorem box_cells_on_perimeter w c :
  In c (box_calls w) ->
  exists y x s,
    c = addstr y x s None
    /\ (((x = min_x w \/ x = max_x w) /\ min_y w <= y <= max_y w)
        \/ ((y = min_y w \/ y = max_y w) /\ min_x w <= x <= max_x w))
    /\ (boundaries_current w -> draw_border w = true ->
        cursor_position_in_bounds w x y = false).
Proof.
  intros Hc.
  assert (Hin : forall x y,
            boundaries_current w -> draw_border w = true ->
            (x = min_x w \/ x = max_x w \/ y = min_y w \/ y = max_y w) ->
            cursor_position_in_bounds w x y = false).
  { intros x y Hb Hd Hxy. unfold boundaries_current in Hb.
    rewrite update_boundaries_eq in Hb. rewrite Hd in Hb.
    unfold cursor_position_in_bounds. rewrite <- Hb in *. cbn in *.
    destruct (_ <=? x) eqn:E1, (x <=? _) eqn:E2,
             (_ <=? y) eqn:E3, (y <=? _) eqn:E4; try reflexivity.
    apply Z.leb_le in E1, E2, E3, E4. lia. }
  unfold box_calls in Hc. apply in_app_or in Hc.
  destruct Hc as [Hc | Hc]; apply in_flat_map in Hc;
    destruct Hc as [i [Hi Hc]]; apply in_range in Hi;
    destruct Hc as [<- | [<- | []]].
  - exists i, (min_x w), "|". repeat split; [left; split; [auto | lia] |].
    intros Hb Hd. apply Hin; auto.
  - exists i, (max_x w), "|". repeat split; [left; split; [auto | lia] |].
    intros Hb Hd. apply Hin; auto.
  - exists (min_y w), i, "-". repeat split; [right; split; [auto | lia] |].
    intros Hb Hd. apply Hin; auto.
  - exists (max_y w), i, "-". repeat split; [right; split; [auto | lia] |].
    intros Hb Hd. apply Hin; auto.
Qed.

(** X3.  The border takes two calls per row and two per column of the outer
    rectangle, an inverted extent counting for none; on a rectangle inverted
    both ways [draw_box] does nothing at all. *)
Theorem draw_box_count w :
  List.length (box_calls w)
  = (2 * Z.to_nat (max_y w + 1 - min_y w)
     + 2 * Z.to_nat (max_x w + 1 - min_x w))%nat
  /\ (max_y w < min_y w -> max_x w < min_x w -> draw_box w = (w, inr tt)).
Proof.
  split.
  - unfold box_calls. rewrite length_app, !flat_map_pair_length, !range_length.
    reflexivity.
  - intros Hy Hx. assert (H := draw_box_emits w (stdscr w)).
    rewrite set_stdscr_same in H. rewrite H. unfold box_calls, range.
    replace (Z.to_nat (max_y w + 1 - min_y w)) with 0%nat by lia.
    replace (Z.to_nat (max_x w + 1 - min_x w)) with 0%nat by lia.
    cbn. rewrite set_stdscr_same. reflexivity.
Qed.

(** ** Further properties: what the methods leave alone *)

Local Abbreviation main_loop := (main_loop COLS LINES accepts).
Local Abbreviation main := (main COLS LINES accepts).

Section Frame.

(** A property of the attributes other than the screen and the cursor. *)
Variable P : Window -> Prop.
Hypothesis P_stable : stable P.
Hypothesis P_cursor : forall w x y, P w -> P (set_cursor x y w).

Lemma update_cursor_frame x y :
  hoare P (update_cursor x y) (fun _ => P) (fun _ => P).
Proof.
  unfold update_cursor. apply hoare_gets_drop. intros ok.
  destruct ok; cbn [negb]; [| apply hoare_raise; auto].
  apply hoare_gets_drop. intros cx. apply hoare_gets_drop. intros cy.
  eapply hoare_bind with (R := fun _ => P).
  { destruct cx as [cx |]; [destruct cy as [cy |] |];
      [| apply hoare_ret; auto ..].
    apply hoare_gets_drop. intros ch. apply hoare_emit_last; auto. }
  intros []. apply hoare_gets_drop. intros ch.
  apply hoare_emit_then; auto.
  eapply hoare_bind with (R := fun _ => P).
  - apply hoare_modify. intros w Hw. apply P_cursor, Hw.
  - intros []. apply hoare_emit_last; auto.
Qed.

Lemma update_cursor_dyn_frame x y :
  hoare P (update_cursor_dyn x y) (fun _ => P) (fun _ => P).
Proof.
  unfold update_cursor_dyn. apply hoare_gets_drop. intros r.
  destruct r as [e | b]; [apply hoare_raise; auto |].
  destruct x as [x |]; [destruct y as [y |] |];
    [apply update_cursor_frame | apply hoare_raise; auto ..].
Qed.

Lemma move_cursor_frame d n :
  hoare P (move_cursor d n) (fun _ => P) (fun _ => P).
Proof.
  unfold move_cursor. destruct (n <? 1); [apply hoare_raise; auto |].
  apply hoare_gets_drop. intros c.
  destruct c as [e | [x y]]; [apply hoare_raise; auto |].
  apply hoare_gets_drop. intros r.
  destruct r as [e | b]; [apply hoare_raise; auto |].
  destruct b; [| apply hoare_ret; auto].
  destruct x as [x |]; [destruct y as [y |] |];
    [| apply hoare_ret; auto ..].
  eapply hoare_bind; [apply update_cursor_frame |].
  intros []. apply hoare_ret. auto.
Qed.

Hypothesis P_boundaries : forall w, P w -> P (fst (update_boundaries w)).

Lemma draw_initial_screen_frame b :
  hoare P (draw_initial_screen b) (fun _ => P) (fun _ => P).
Proof.
  unfold draw_initial_screen.
  do 3 (apply hoare_emit_then; auto).
  apply hoare_gets_drop. intros p. apply hoare_emit_then; auto.
  apply hoare_gets_drop. intros c. apply hoare_emit_then; auto.
  eapply hoare_bind with (R := fun _ => P).
  { apply hoare_modify. intros w Hw. apply (P_boundaries w Hw). }
  intros []. apply hoare_gets_drop. intros m.
  eapply hoare_bind with (R := fun _ => P).
  { destruct m; [apply hoare_emit_last | apply hoare_ret]; auto. }
  intros []. apply hoare_gets_drop. intros db.
  eapply hoare_bind with (R := fun _ => P).
  { destruct db; [apply draw_box_stable | apply hoare_ret]; auto. }
  intros [].
  eapply hoare_bind with (R := fun _ => P).
  2: { intros []. apply hoare_emit_last; auto. }
  destruct b.
  - eapply hoare_bind with (R := fun _ => P).
    { apply hoare_modify. intros w Hw. apply P_cursor, Hw. }
    intros []. apply hoare_gets_drop. intros x. apply hoare_gets_drop.
    intros y. apply update_cursor_frame.
  - apply hoare_gets_drop. intros x. apply hoare_gets_drop. intros y.
    apply update_cursor_dyn_frame.
Qed.

Lemma handle_key_frame key :
  hoare P (handle_key key) (fun _ => P) (fun _ => P).
Proof.
  unfold handle_key.
  repeat match goal with
  | |- hoare _ (if ?b then _ else _) _ _ => destruct b
  end;
  try (apply hoare_ret; auto);
  try (eapply hoare_bind; [apply move_cursor_frame |];
       intros u; apply hoare_ret; auto).
  eapply hoare_bind; [apply draw_initial_screen_frame |].
  intros u. apply hoare_ret. auto.
Qed.

Lemma main_loop_frame keys :
  hoare P (main_loop keys) (fun _ => P) (fun _ => P).
Proof.
  induction keys as [| key rest IH]; cbn [main_loop].
  - apply hoare_ret. auto.
  - eapply hoare_bind; [apply handle_key_frame |].
    intros go_on. destruct go_on; [exact IH | apply hoare_ret; auto].
Qed.

Lemma run_frame m w : P w -> P (run m w).
Proof.
  intros Hw. destruct m; cbn [run].
  - apply P_boundaries, Hw.
  - apply (hoare_fst _ P); [apply draw_box_stable; auto | exact Hw].
  - apply (hoare_fst _ P); [apply update_cursor_frame | exact Hw].
  - apply (hoare_fst _ P); [apply move_cursor_frame | exact Hw].
  - apply (hoare_fst _ P); [apply draw_initial_screen_frame | exact Hw].
Qed.

End Frame.

Lemma configuration_frame c :
  stable (fun w => configuration w = c)
  /\ (forall w x y, configuration w = c ->
        configuration (set_cursor x y w) = c)
  /\ (forall w, configuration w = c ->
        configuration (fst (update_boundaries w)) = c).
Proof.
  repeat split.
  - intros w l H. destruct w; exact H.
  - intros w x y H. destruct w; exact H.
  - intros w H. rewrite update_boundaries_eq. destruct w; exact H.
Qed.

(** X4.  No method and no key changes what the constructor's arguments set:
    the margins, the two glyphs, the two colour pairs, the message, the
    border flag and the initial coordinates, whether the call returns or
    raises and whatever the screen does. *)
Theorem configuration_never_changes :
  (forall m w, configuration (run m w) = configuration w)
  /\ (forall keys w,
        configuration (fst (main_loop keys w)) = configuration w).
Proof.
  split.
  - intros m w.
    destruct (configuration_frame (configuration w)) as [H1 [H2 H3]].
    apply (run_frame (fun w' => configuration w' = configuration w));
      auto.
  - intros keys w.
    destruct (configuration_frame (configuration w)) as [H1 [H2 H3]].
    apply (hoare_fst _ (fun w' => configuration w' = configuration w));
      [| reflexivity].
    apply main_loop_frame; auto.
Qed.

Lemma boundaries_frame b :
  let P := fun w => boundaries_current w /\ boundaries w = b in
  stable P
  /\ (forall w x y, P w -> P (set_cursor x y w))
  /\ (forall w, P w -> P (fst (update_boundaries w))).
Proof.
  cbv zeta. split; [| split].
  - intros w l [H H']. split.
    + apply (boundaries_current_frame w l (cursor_x w) (cursor_y w)) in H.
      destruct w; exact H.
    + destruct w; exact H'.
  - intros w x y [H H']. split.
    + apply (boundaries_current_frame w (stdscr w) x y) in H.
      destruct w; exact H.
    + destruct w; exact H'.
  - intros w [H H']. rewrite (update_boundaries_id w H). split; assumption.
Qed.

(** X5.  Once the boundaries are those of the configuration, as they are
    from the constructor on, no method and no key changes either rectangle;
    [draw_box], [update_cursor] and [move_cursor] keep whatever boundaries
    are stored. *)
Theorem boundaries_never_move w :
  (boundaries_current w ->
   (forall m, boundaries (run m w) = boundaries w)
   /\ (forall keys, boundaries (fst (main_loop keys w)) = boundaries w))
  /\ boundaries (fst (draw_box w)) = boundaries w
  /\ (forall x y, boundaries (fst (update_cursor x y w)) = boundaries w)
  /\ (forall d n, boundaries (fst (move_cursor d n w)) = boundaries w).
Proof.
  assert (Hs : stable (fun w' => boundaries w' = boundaries w)).
  { intros w' l H. destruct w'; exact H. }
  assert (Hc : forall w' x y, boundaries w' = boundaries w ->
                 boundaries (set_cursor x y w') = boundaries w).
  { intros w' x y H. destruct w'; exact H. }
  split; [| split; [| split]].
  - intros Hb. destruct (boundaries_frame (boundaries w)) as [H1 [H2 H3]].
    split.
    + intros m.
      exact (proj2 (run_frame _ H1 H2 H3 m w (conj Hb eq_refl))).
    + intros keys.
      exact (proj2 (hoare_fst (main_loop keys) _ _ w
                      (main_loop_frame _ H1 H2 H3 keys) (conj Hb eq_refl))).
  - apply (hoare_fst _ (fun w' => boundaries w' = boundaries w));
      [apply draw_box_stable; auto | reflexivity].
  - intros x y.
    apply (hoare_fst _ (fun w' => boundaries w' = boundaries w));
      [apply update_cursor_frame; auto | reflexivity].
  - intros d n.
    apply (hoare_fst _ (fun w' => boundaries w' = boundaries w));
      [apply move_cursor_frame; auto | reflexivity].
Qed.

(** X6.  With margins that are not negative, a placed cursor of a window the
    program can hold is a cell of the terminal, below the row of the
    message and left of the last column. *)
Theorem cursor_on_terminal w x y :
  reachable w ->
  0 <= buffer_top w -> 0 <= buffer_bottom w ->
  0 <= buffer_left w -> 0 <= buffer_right w ->
  cursor_x w = Some x -> cursor_y w = Some y ->
  0 <= x < COLS - 1 /\ 1 <= y < LINES.
Proof.
  intros Hr Ht Hb Hl Hrr Hx Hy.
  destruct (reachable_wf w Hr) as [Hbc Hc]. specialize (Hc x y Hx Hy).
  unfold boundaries_current in Hbc.
  rewrite update_boundaries_eq in Hbc.
  unfold cursor_position_in_bounds in Hc. rewrite <- Hbc in Hc. cbn in Hc.
  destruct (_ <=? x) eqn:E1, (x <=? _) eqn:E2,
           (_ <=? y) eqn:E3, (y <=? _) eqn:E4; try discriminate Hc.
  apply Z.leb_le in E1, E2, E3, E4.
  destruct (draw_border w); lia.
Qed.

(** ** Further properties: the cursor on any screen *)

Lemma update_cursor_emits w x y :
  cursor_position_in_bounds w x y = true ->
  update_cursor x y w
  = (if snd (emit_all accepts (stdscr w) (paint_calls w x y))
     then
       (set_stdscr
          (fst (emit_all accepts (stdscr w) (paint_calls w x y)) ++ [refresh])
          (set_cursor (Some x) (Some y) w),
        if accepts (fst (emit_all accepts (stdscr w) (paint_calls w x y)))
             refresh
        then inr tt else inl curses_error)
     else
       (set_stdscr (fst (emit_all accepts (stdscr w) (paint_calls w x y))) w,
        inl curses_error)).
Proof.
  intros H. unfold update_cursor, paint_calls, bind, gets. rewrite H.
  cbn [negb]. unfold emit, modify.
  destruct (cursor_x w) as [cx |], (cursor_y w) as [cy |]; cbn;
    repeat match goal with
    | |- context [accepts ?h ?c] => destruct (accepts h c) eqn:?; cbn
    end; reflexivity.
Qed.

(** X7.  A cursor placement inside the inner rectangle, on any screen: the
    trail and the head are painted in this order up to the first refusal;
    a refused paint raises the exception of the screen and leaves the cursor
    where it was; once both are accepted the cursor is at the new position,
    also when the refresh that follows is refused and raises; no other
    exception is raised. *)
Theorem update_cursor_on_any_screen w x y :
  cursor_position_in_bounds w x y = true ->
  let r := emit_all accepts (stdscr w) (paint_calls w x y) in
  let w' := fst (update_cursor x y w) in
  (snd r = false ->
   update_cursor x y w = (set_stdscr (fst r) w, inl curses_error))
  /\ (snd r = true ->
      w' = set_stdscr (fst r ++ [refresh]) (set_cursor (Some x) (Some y) w)
      /\ snd (update_cursor x y w)
         = (if accepts (fst r) refresh then inr tt else inl curses_error))
  /\ (forall e, snd (update_cursor x y w) = inl e -> e = curses_error).
Proof.
  intros H r w'. subst w'. rewrite (update_cursor_emits w x y H).
  fold r. destruct (snd r); repeat split; try discriminate.
  - intros e. cbn. destruct (accepts (fst r) refresh); congruence.
  - intros e. cbn. congruence.
Qed.

(** X9.  Moving a cursor that was never placed raises [TypeError], for every
    direction and every distance from 1 on, and changes nothing, the screen
    included. *)
Theorem move_cursor_unset_cursor w d n :
  cursor_x w = None -> 1 <= n ->
  move_cursor (Member d) n w = (w, inl TypeError).
Proof.
  intros Hx Hn. unfold move_cursor.
  destruct (n <? 1) eqn:E; [apply Z.ltb_lt in E; lia |].
  unfold bind, gets, candidate. rewrite Hx.
  destruct d; cbn; try reflexivity;
    destruct (cursor_y w); reflexivity.
Qed.

(** X10.  With a placed cursor, a member of [Direction] and a distance from
    1 on, on any screen: [move_cursor] returns the bounds test of the
    candidate, with the cursor on the candidate when it is True and the
    window unchanged when it is False; the only exception it can raise is
    the one of the screen, and only for a candidate in bounds. *)
Theorem move_cursor_result w d n cx cy :
  cursor_x w = Some cx -> cursor_y w = Some cy -> 1 <= n ->
  let q := offset d n cx cy in
  match move_cursor (Member d) n w with
  | (w', inr b) =>
      b = cursor_position_in_bounds w (fst q) (snd q)
      /\ (if b
          then cursor_x w' = Some (fst q) /\ cursor_y w' = Some (snd q)
          else w' = w)
  | (w', inl e) =>
      e = curses_error
      /\ cursor_position_in_bounds w (fst q) (snd q) = true
  end.
Proof.
  intros Hx Hy Hn q.
  destruct (cursor_position_in_bounds w (fst q) (snd q)) eqn:Hq.
  - unfold move_cursor.
    destruct (n <? 1) eqn:E; [apply Z.ltb_lt in E; lia |].
    unfold bind at 1. unfold gets at 1.
    rewrite (candidate_placed w d n cx cy Hx Hy). fold q.
    unfold bind at 1. unfold gets at 1.
    cbn [cursor_position_in_bounds_dyn]. rewrite Hq.
    unfold bind. rewrite (update_cursor_emits w _ _ Hq).
    destruct (snd (emit_all _ _ _)); [| split; reflexivity].
    destruct (accepts _ refresh); cbn; repeat split; reflexivity.
  - subst q. rewrite (move_cursor_blocked w d n cx cy Hx Hy Hn Hq).
    split; reflexivity.
Qed.

Lemma offset_opposite d n x y :
  offset (opposite d) n (fst (offset d n x y)) (snd (offset d n x y)) = (x, y).
Proof. destruct d; cbn; f_equal; lia. Qed.

(** X8.  On a screen that accepts the calls, a move that is accepted followed
    by the move of the same distance the other way brings the cursor back:
    the second move returns True, the window is the one before with six
    calls added to the screen, and the cell visited in between keeps the
    trail glyph. *)
Theorem move_cursor_round_trip w d n cx cy :
  reliable -> wf w ->
  cursor_x w = Some cx -> cursor_y w = Some cy -> 1 <= n ->
  let q := offset d n cx cy in
  cursor_position_in_bounds w (fst q) (snd q) = true ->
  (move_cursor (Member d) n ;; move_cursor (Member (opposite d)) n) w
  = (set_stdscr
       (stdscr w
        ++ [addstr cy cx (prev_point_char w) (Some 1);
            addstr (snd q) (fst q) (curr_point_char w) (Some 2);
            refresh;
            addstr (snd q) (fst q) (prev_point_char w) (Some 1);
            addstr cy cx (curr_point_char w) (Some 2);
            refresh]) w,
     inr true).
Proof.
  intros Hr Hw Hx Hy Hn q Hq. unfold bind.
  rewrite (move_cursor_accepted w d n cx cy Hr Hx Hy Hn Hq). fold q.
  set (w1 := set_stdscr _ _).
  assert (Hx1 : cursor_x w1 = Some (fst q)) by reflexivity.
  assert (Hy1 : cursor_y w1 = Some (snd q)) by reflexivity.
  assert (Hback : cursor_position_in_bounds w1
                    (fst (offset (opposite d) n (fst q) (snd q)))
                    (snd (offset (opposite d) n (fst q) (snd q))) = true).
  { subst q. rewrite offset_opposite. cbn [fst snd].
    exact (proj2 Hw cx cy Hx Hy). }
  rewrite (move_cursor_accepted w1 (opposite d) n (fst q) (snd q)
             Hr Hx1 Hy1 Hn Hback).
  subst q. rewrite offset_opposite. cbn [fst snd].
  subst w1. unfold cursor_paints. clear Hback Hx1 Hy1 Hq Hw.
  destruct w; cbn in Hx, Hy; subst; cbn. rewrite <- app_assoc. reflexivity.
Qed.

(** ** Further properties: the initial screen *)

Lemma bind_emit_set {B} c (k : unit -> M B) h w :
  reliable ->
  bind (emit c) k (set_stdscr h w) = k tt (set_stdscr (h ++ [c]) w).
Proof.
  intros Hr. unfold bind. rewrite emit_reliable by exact Hr. reflexivity.
Qed.

Lemma bind_gets {A B} (f : Window -> A) (k : A -> M B) w :
  bind (gets f) k w = k (f w) w.
Proof. reflexivity. Qed.

Lemma update_boundaries_set_stdscr h w :
  fst (update_boundaries (set_stdscr h w))
  = set_stdscr h (fst (update_boundaries w)).
Proof. rewrite !update_boundaries_eq. destruct w; reflexivity. Qed.

Lemma bind_update_boundaries {B} (k : unit -> M B) h w :
  bind update_boundaries k (set_stdscr h w)
  = k tt (set_stdscr h (fst (update_boundaries w))).
Proof.
  rewrite <- update_boundaries_set_stdscr. reflexivity.
Qed.

Lemma bind_draw_box {B} (k : unit -> M B) h w :
  reliable ->
  bind draw_box k (set_stdscr h w) = k tt (set_stdscr (h ++ box_calls w) w).
Proof.
  intros Hr. unfold bind. rewrite draw_box_emits, emit_all_reliable by exact Hr.
  reflexivity.
Qed.

Lemma update_boundaries_configuration w :
  configuration (fst (update_boundaries w)) = configuration w.
Proof. rewrite update_boundaries_eq. destruct w; reflexivity. Qed.

Lemma draw_initial_screen_decoration b w h :
  reliable ->
  let wb := fst (update_boundaries w) in
  draw_initial_screen b (set_stdscr h w)
  = ((if b
      then modify (set_cursor None None) ;;
           x <- gets initial_cursor_x ;;
           y <- gets initial_cursor_y ;;
           update_cursor x y
      else x <- gets cursor_x ;;
           y <- gets cursor_y ;;
           update_cursor_dyn x y) ;;
     emit refresh) (set_stdscr (h ++ decoration_calls wb) wb).
Proof.
  intros Hr wb. unfold draw_initial_screen.
  set (rest := bind (if b then _ else _) _).
  pose proof (update_boundaries_configuration w) as Hc. fold wb in Hc.
  unfold configuration in Hc. injection Hc as _ _ _ _ _ _ Hpp Hcp _ _ _ _.
  do 3 rewrite bind_emit_set by exact Hr.
  rewrite bind_gets. cbn [prev_point_color_pair set_stdscr].
  rewrite bind_emit_set by exact Hr.
  rewrite bind_gets. cbn [curr_point_color_pair set_stdscr].
  rewrite bind_emit_set by exact Hr.
  rewrite bind_update_boundaries. fold wb.
  rewrite bind_gets. cbn [message set_stdscr].
  unfold decoration_calls. rewrite Hpp, Hcp.
  destruct (message wb) as [text |].
  - rewrite bind_emit_set by exact Hr.
    rewrite bind_gets. cbn [draw_border set_stdscr].
    destruct (draw_border wb).
    + rewrite bind_draw_box by exact Hr. f_equal. f_equal.
      rewrite <- !app_assoc. reflexivity.
    + unfold bind at 1. unfold ret. f_equal. f_equal.
      rewrite <- !app_assoc. reflexivity.
  - unfold bind at 1. unfold ret.
    rewrite bind_gets. cbn [draw_border set_stdscr].
    destruct (draw_border wb).
    + rewrite bind_draw_box by exact Hr. f_equal. f_equal.
      rewrite <- !app_assoc. reflexivity.
    + unfold bind at 1. unfold ret. f_equal. f_equal.
      rewrite <- !app_assoc. reflexivity.
Qed.

Lemma draw_initial_screen_true w h :
  reliable ->
  let wb := fst (update_boundaries w) in
  let x := initial_cursor_x w in
  let y := initial_cursor_y w in
  draw_initial_screen true (set_stdscr h w)
  = (if cursor_position_in_bounds wb x y
     then (set_stdscr
             (h ++ decoration_calls wb
                ++ [addstr y x (curr_point_char w) (Some 2); refresh; refresh])
             (set_cursor (Some x) (Some y) wb), inr tt)
     else (set_stdscr (h ++ decoration_calls wb) (set_cursor None None wb),
           inl (ValueError OutOfBounds))).
Proof.
  intros Hr wb x y.
  rewrite (draw_initial_screen_decoration true w h Hr). fold wb.
  pose proof (update_boundaries_configuration w) as Hc. fold wb in Hc.
  unfold configuration in Hc. injection Hc as _ _ _ _ _ Hcc _ _ _ _ Hix Hiy.
  clearbody wb.
  unfold bind at 1. unfold bind at 1. unfold modify.
  rewrite !bind_gets. cbn [initial_cursor_x initial_cursor_y set_cursor].
  cbn [initial_cursor_x initial_cursor_y set_stdscr]. rewrite Hix, Hiy.
  fold x y.
  set (w1 := set_cursor None None _).
  assert (Hb : cursor_position_in_bounds w1 x y
               = cursor_position_in_bounds wb x y) by reflexivity.
  destruct (cursor_position_in_bounds wb x y) eqn:E.
  - rewrite (update_cursor_in w1 x y Hr Hb).
    rewrite emit_reliable by exact Hr. subst w1. unfold cursor_paints.
    rewrite <- Hcc. clear Hb. generalize (decoration_calls wb). intros l.
    unfold set_cursor, set_stdscr. cbn. rewrite <- !app_assoc. reflexivity.
  - rewrite (update_cursor_out w1 x y Hb). reflexivity.
Qed.

Lemma update_boundaries_cursor w :
  cursor_x (fst (update_boundaries w)) = cursor_x w
  /\ cursor_y (fst (update_boundaries w)) = cursor_y w.
Proof. rewrite update_boundaries_eq. destruct w; split; reflexivity. Qed.

Lemma draw_initial_screen_false w h cx cy :
  reliable ->
  let wb := fst (update_boundaries w) in
  cursor_x w = Some cx -> cursor_y w = Some cy ->
  draw_initial_screen false (set_stdscr h w)
  = (if cursor_position_in_bounds wb cx cy
     then (set_stdscr
             (h ++ decoration_calls wb
                ++ [addstr cy cx (prev_point_char w) (Some 1);
                    addstr cy cx (curr_point_char w) (Some 2);
                    refresh; refresh]) wb, inr tt)
     else (set_stdscr (h ++ decoration_calls wb) wb,
           inl (ValueError OutOfBounds))).
Proof.
  intros Hr wb Hx Hy.
  rewrite (draw_initial_screen_decoration false w h Hr). fold wb.
  pose proof (update_boundaries_configuration w) as Hc. fold wb in Hc.
  unfold configuration in Hc. injection Hc as _ _ _ _ Hpc Hcc _ _ _ _ _ _.
  destruct (update_boundaries_cursor w) as [Hx' Hy']. fold wb in Hx', Hy'.
  rewrite Hx in Hx'. rewrite Hy in Hy'. clearbody wb.
  unfold bind at 1. rewrite !bind_gets. cbn [cursor_x cursor_y set_stdscr].
  rewrite Hx', Hy', update_cursor_dyn_some.
  set (w1 := set_stdscr _ wb).
  assert (Hb : cursor_position_in_bounds w1 cx cy
               = cursor_position_in_bounds wb cx cy) by reflexivity.
  destruct (cursor_position_in_bounds wb cx cy) eqn:E.
  - rewrite (update_cursor_in w1 cx cy Hr Hb).
    rewrite emit_reliable by exact Hr. subst w1. unfold cursor_paints.
    rewrite <- Hpc, <- Hcc. clear Hb. generalize (decoration_calls wb).
    intros l. cbn [cursor_x cursor_y set_stdscr]. rewrite Hx', Hy'.
    destruct wb; cbn in Hx', Hy'; subst.
    unfold set_cursor, set_stdscr. cbn. rewrite <- !app_assoc. reflexivity.
  - rewrite (update_cursor_out w1 cx cy Hb). reflexivity.
Qed.

Lemma draw_initial_screen_unset w h :
  reliable ->
  let wb := fst (update_boundaries w) in
  cursor_x w = None ->
  draw_initial_screen false (set_stdscr h w)
  = (set_stdscr (h ++ decoration_calls wb) wb, inl TypeError).
Proof.
  intros Hr wb Hx.
  rewrite (draw_initial_screen_decoration false w h Hr). fold wb.
  destruct (update_boundaries_cursor w) as [Hx' _]. fold wb in Hx'.
  rewrite Hx in Hx'. clearbody wb.
  unfold bind at 1. rewrite !bind_gets. cbn [cursor_x cursor_y set_stdscr].
  rewrite Hx'. reflexivity.
Qed.

(** X14.  On a screen that accepts the calls, [draw_initial_screen] issues
    exactly: clear, curs_set(0), start_color, the two init_pair, the message
    at (0, 0) when there is one, the border when it is enabled, then the
    paints of the cursor and two refresh in a row.  With [reset_cursor] the
    cursor goes to the initial coordinates and only the head is painted;
    without, a placed cursor keeps its cell, where the trail and then the
    head are painted; without and with no cursor placed the decoration is
    drawn and [TypeError] is raised. *)
Theorem draw_initial_screen_calls w :
  reliable ->
  let wb := fst (update_boundaries w) in
  let x := initial_cursor_x w in
  let y := initial_cursor_y w in
  (cursor_position_in_bounds wb x y = true ->
   draw_initial_screen true w
   = (set_stdscr
        (stdscr w ++ decoration_calls wb
           ++ [addstr y x (curr_point_char w) (Some 2); refresh; refresh])
        (set_cursor (Some x) (Some y) wb), inr tt))
  /\ (forall cx cy,
        cursor_x w = Some cx -> cursor_y w = Some cy ->
        cursor_position_in_bounds wb cx cy = true ->
        draw_initial_screen false w
        = (set_stdscr
             (stdscr w ++ decoration_calls wb
                ++ [addstr cy cx (prev_point_char w) (Some 1);
                    addstr cy cx (curr_point_char w) (Some 2);
                    refresh; refresh]) wb, inr tt))
  /\ (cursor_x w = None ->
      draw_initial_screen false w
      = (set_stdscr (stdscr w ++ decoration_calls wb) wb, inl TypeError)).
Proof.
  intros Hr wb x y. split; [| split].
  - intros Hb. pose proof (draw_initial_screen_true w (stdscr w) Hr) as H.
    cbv zeta in H. fold wb x y in H. rewrite Hb, set_stdscr_same in H.
    exact H.
  - intros cx cy Hx Hy Hb.
    pose proof (draw_initial_screen_false w (stdscr w) cx cy Hr Hx Hy) as H.
    cbv zeta in H. fold wb in H. rewrite Hb, set_stdscr_same in H. exact H.
  - intros Hx.
    pose proof (draw_initial_screen_unset w (stdscr w) Hr Hx) as H.
    rewrite set_stdscr_same in H. exact H.
Qed.

(** X11.  On a screen that accepts the calls, the constructor returns exactly
    when the initial coordinates, given or derived, are inside the inner
    rectangle; otherwise it raises the out-of-bounds [ValueError] once the
    screen is cleared and the message and the border are drawn, and no
    cursor is placed. *)
Theorem constructor_returns_iff_initial_in_bounds
    scr cx cy bt bb bl br pc cc pp cp msg db :
  reliable ->
  let w0 := init_attributes scr cx cy bt bb bl br pc cc pp cp msg db in
  let wb := fst (update_boundaries w0) in
  let ok := cursor_position_in_bounds wb
              (initial_cursor_x w0) (initial_cursor_y w0) in
  (ok = true <->
   exists w, __init__ scr cx cy bt bb bl br pc cc pp cp msg db = (w, inr tt))
  /\ (ok = false ->
      __init__ scr cx cy bt bb bl br pc cc pp cp msg db
      = (set_stdscr (scr ++ decoration_calls wb) wb,
         inl (ValueError OutOfBounds))
      /\ cursor_x wb = None /\ cursor_y wb = None).
Proof.
  intros Hr w0 wb ok. unfold __init__. fold w0.
  pose proof (draw_initial_screen_true w0 (stdscr w0) Hr) as H.
  cbv zeta in H. fold wb in H. fold ok in H. rewrite set_stdscr_same in H.
  rewrite H. destruct ok; split.
  - split; [intros _; eexists; reflexivity | reflexivity].
  - discriminate.
  - split; [discriminate | intros [w Hw]; discriminate Hw].
  - intros _. split; [| split].
    + f_equal. subst wb. rewrite update_boundaries_eq. reflexivity.
    + apply (proj1 (update_boundaries_cursor w0)).
    + apply (proj2 (update_boundaries_cursor w0)).
Qed.

(** ** Further properties: windows on a screen that accepts the calls *)

Lemma in_bounds_frame w l x y a b :
  cursor_position_in_bounds (set_stdscr l (set_cursor x y w)) a b
  = cursor_position_in_bounds w a b.
Proof. reflexivity. Qed.

Lemma move_cursor_bad_distance w direction n :
  n < 1 ->
  move_cursor direction n w = (w, inl (ValueError (BadDistance n))).
Proof.
  intros Hn. unfold move_cursor. apply Z.ltb_lt in Hn. rewrite Hn.
  reflexivity.
Qed.

Lemma move_cursor_bad_direction w t n :
  exists e, move_cursor (Other t) n w = (w, inl e).
Proof.
  unfold move_cursor. destruct (n <? 1); eexists; reflexivity.
Qed.

(** The initial coordinates stay inside the stored inner rectangle. *)
Lemma initial_in_bounds_frame :
  let P := fun w =>
    boundaries_current w
    /\ cursor_position_in_bounds w
         (initial_cursor_x w) (initial_cursor_y w) = true in
  stable P
  /\ (forall w x y, P w -> P (set_cursor x y w))
  /\ (forall w, P w -> P (fst (update_boundaries w))).
Proof.
  cbv zeta. split; [| split].
  - intros w l [H H']. split.
    + apply (boundaries_current_frame w l (cursor_x w) (cursor_y w)) in H.
      destruct w; exact H.
    + destruct w; exact H'.
  - intros w x y [H H']. split.
    + apply (boundaries_current_frame w (stdscr w) x y) in H.
      destruct w; exact H.
    + destruct w; exact H'.
  - intros w [H H']. rewrite (update_boundaries_id w H). split; assumption.
Qed.

(** One method call from a window with a placed cursor. *)
Lemma run_placed m w :
  reliable -> wf w ->
  cursor_position_in_bounds w
    (initial_cursor_x w) (initial_cursor_y w) = true ->
  (exists x y, cursor_x w = Some x /\ cursor_y w = Some y) ->
  exists x y, cursor_x (run m w) = Some x /\ cursor_y (run m w) = Some y.
Proof.
  intros Hr Hw Hi [cx [cy [Hx Hy]]].
  pose proof (update_boundaries_id w (proj1 Hw)) as Hid.
  pose proof (proj2 Hw cx cy Hx Hy) as Hc.
  destruct m; cbn [run].
  - rewrite Hid. eauto.
  - pose proof (draw_box_emits w (stdscr w)) as H.
    rewrite set_stdscr_same in H. rewrite H. cbn. eauto.
  - destruct (cursor_position_in_bounds w x y) eqn:E.
    + rewrite (update_cursor_in w x y Hr E). cbn. eauto.
    + rewrite (update_cursor_out w x y E). cbn. eauto.
  - destruct direction as [d | t].
    + destruct (Z.lt_ge_cases distance 1) as [Hn | Hn].
      { rewrite (move_cursor_bad_distance w _ _ Hn). cbn. eauto. }
      destruct (cursor_position_in_bounds w
                  (fst (offset d distance cx cy))
                  (snd (offset d distance cx cy))) eqn:E.
      * rewrite (move_cursor_accepted w d distance cx cy Hr Hx Hy Hn E).
        cbn. eauto.
      * rewrite (move_cursor_blocked w d distance cx cy Hx Hy Hn E).
        cbn. eauto.
    + destruct (move_cursor_bad_direction w t distance) as [e ->]. cbn. eauto.
  - destruct reset_cursor.
    + pose proof (draw_initial_screen_true w (stdscr w) Hr) as H.
      cbv zeta in H. rewrite Hid, Hi, set_stdscr_same in H. rewrite H.
      cbn. eauto.
    + pose proof (draw_initial_screen_false w (stdscr w) cx cy Hr Hx Hy)
        as H.
      cbv zeta in H. rewrite Hid, Hc, set_stdscr_same in H. rewrite H.
      cbn. eauto.
Qed.

Lemma reachable_placed w :
  reliable -> reachable w ->
  cursor_position_in_bounds w
    (initial_cursor_x w) (initial_cursor_y w) = true
  /\ exists x y, cursor_x w = Some x /\ cursor_y w = Some y.
Proof.
  intros Hr Hreach. induction Hreach as [scr cx cy bt bb bl br pc cc pp cp
                                          msg db w H | w m Hreach IH].
  - unfold __init__ in H.
    match type of H with
    | draw_initial_screen true ?w0 = _ =>
        pose proof (draw_initial_screen_true w0 (stdscr w0) Hr) as T;
        cbv zeta in T; rewrite set_stdscr_same in T;
        pose proof (update_boundaries_configuration w0) as Hc;
        set (wb := fst (update_boundaries w0)) in *;
        set (x := initial_cursor_x w0) in *;
        set (y := initial_cursor_y w0) in *
    end.
    rewrite T in H. clear T.
    unfold configuration in Hc. injection Hc as _ _ _ _ _ _ _ _ _ _ Hix Hiy.
    destruct (cursor_position_in_bounds wb x y) eqn:E; [| discriminate H].
    injection H as <-. split.
    + cbn [initial_cursor_x initial_cursor_y set_stdscr set_cursor].
      rewrite in_bounds_frame, Hix, Hiy. exact E.
    + exists x, y. split; reflexivity.
  - destruct IH as [Hi Hp]. pose proof (reachable_wf w Hreach) as Hw. split.
    + destruct initial_in_bounds_frame as [H1 [H2 H3]].
      exact (proj2 (run_frame _ H1 H2 H3 m w (conj (proj1 Hw) Hi))).
    + apply run_placed; assumption.
Qed.

(** X12.  On a screen that accepts the calls, every window the program can
    hold has its cursor placed, and its initial coordinates inside the inner
    rectangle; so a redraw with either flag returns, and a move by a member
    of [Direction] and a distance from 1 on returns, never raising. *)
Theorem reachable_window_has_cursor w :
  reliable -> reachable w ->
  (exists x y, cursor_x w = Some x /\ cursor_y w = Some y)
  /\ cursor_position_in_bounds w
       (initial_cursor_x w) (initial_cursor_y w) = true
  /\ (forall b, exists w', draw_initial_screen b w = (w', inr tt))
  /\ (forall d n, 1 <= n ->
        exists w' r, move_cursor (Member d) n w = (w', inr r)).
Proof.
  intros Hr Hreach. destruct (reachable_placed w Hr Hreach) as [Hi Hp].
  pose proof (reachable_wf w Hreach) as Hw.
  pose proof (update_boundaries_id w (proj1 Hw)) as Hid.
  destruct Hp as [cx [cy [Hx Hy]]].
  pose proof (proj2 Hw cx cy Hx Hy) as Hc.
  split; [eauto | split; [exact Hi | split]].
  - intros [].
    + pose proof (draw_initial_screen_true w (stdscr w) Hr) as H.
      cbv zeta in H. rewrite Hid, Hi, set_stdscr_same in H. eauto.
    + pose proof (draw_initial_screen_false w (stdscr w) cx cy Hr Hx Hy)
        as H.
      cbv zeta in H. rewrite Hid, Hc, set_stdscr_same in H. eauto.
  - intros d n Hn.
    destruct (cursor_position_in_bounds w
                (fst (offset d n cx cy)) (snd (offset d n cx cy))) eqn:E.
    + rewrite (move_cursor_accepted w d n cx cy Hr Hx Hy Hn E). eauto.
    + rewrite (move_cursor_blocked w d n cx cy Hx Hy Hn E). eauto.
Qed.

(** ** Further properties: the loop of [main] *)

Lemma in_bounds_boundaries w1 w x y :
  boundaries w1 = boundaries w ->
  cursor_position_in_bounds w1 x y = cursor_position_in_bounds w x y.
Proof.
  unfold boundaries, cursor_position_in_bounds. intros H.
  injection H as _ _ _ _ -> -> -> ->. reflexivity.
Qed.

Lemma path_boundaries w1 w keys p :
  boundaries w1 = boundaries w -> path w1 keys p = path w keys p.
Proof.
  intros H. revert p. induction keys as [| key rest IH]; intros p; cbn.
  - reflexivity.
  - destruct (quits key); [reflexivity |]. rewrite IH. f_equal.
    unfold next_position. destruct (arrow key); [| reflexivity].
    rewrite (in_bounds_boundaries w1 w _ _ H). reflexivity.
Qed.

Lemma arrow_step d w cx cy :
  reliable -> wf w -> cursor_x w = Some cx -> cursor_y w = Some cy ->
  let q := offset d 1 cx cy in
  let p := if cursor_position_in_bounds w (fst q) (snd q) then q
           else (cx, cy) in
  exists w1,
    (move_cursor (Member d) 1 ;; ret true) w = (w1, inr true)
    /\ wf w1 /\ boundaries w1 = boundaries w
    /\ cursor_x w1 = Some (fst p) /\ cursor_y w1 = Some (snd p).
Proof.
  intros Hr Hw Hx Hy q p. subst p. unfold bind.
  destruct (cursor_position_in_bounds w (fst q) (snd q)) eqn:E.
  - rewrite (move_cursor_accepted w d 1 cx cy Hr Hx Hy ltac:(lia) E).
    fold q. eexists. split; [reflexivity |]. repeat split.
    + apply stable_wf, set_cursor_wf; assumption.
    + apply stable_wf, set_cursor_wf; assumption.
  - rewrite (move_cursor_blocked w d 1 cx cy Hx Hy ltac:(lia) E).
    exists w. repeat split; try assumption; apply Hw.
Qed.

Lemma handle_key_step key w cx cy :
  reliable -> wf w -> cursor_x w = Some cx -> cursor_y w = Some cy ->
  let p := next_position w key (cx, cy) in
  exists w1,
    handle_key key w = (w1, inr (negb (quits key)))
    /\ wf w1 /\ boundaries w1 = boundaries w
    /\ cursor_x w1 = Some (fst p) /\ cursor_y w1 = Some (snd p).
Proof.
  intros Hr Hw Hx Hy. unfold handle_key, next_position, arrow.
  destruct (String.eqb key "KEY_LEFT") eqn:E1.
  { apply String.eqb_eq in E1. subst key.
    exact (arrow_step LEFT w cx cy Hr Hw Hx Hy). }
  destruct (String.eqb key "KEY_RIGHT") eqn:E2.
  { apply String.eqb_eq in E2. subst key.
    exact (arrow_step RIGHT w cx cy Hr Hw Hx Hy). }
  destruct (String.eqb key "KEY_UP") eqn:E3.
  { apply String.eqb_eq in E3. subst key.
    exact (arrow_step UP w cx cy Hr Hw Hx Hy). }
  destruct (String.eqb key "KEY_DOWN") eqn:E4.
  { apply String.eqb_eq in E4. subst key.
    exact (arrow_step DOWN w cx cy Hr Hw Hx Hy). }
  cbv zeta. cbn [fst snd].
  destruct (String.eqb key "c" || String.eqb key "C")%bool eqn:E5.
  { assert (Hq : quits key = false).
    { apply Bool.orb_true_iff in E5.
      destruct E5 as [E | E]; apply String.eqb_eq in E; subst key;
        reflexivity. }
    rewrite Hq. unfold bind.
    pose proof (draw_initial_screen_false w (stdscr w) cx cy Hr Hx Hy) as H.
    cbv zeta in H.
    rewrite (update_boundaries_id w (proj1 Hw)), (proj2 Hw cx cy Hx Hy),
      set_stdscr_same in H.
    rewrite H. eexists. split; [reflexivity |].
    split; [apply stable_wf, Hw |]. repeat split; assumption. }
  unfold quits.
  destruct (String.eqb key "q" || String.eqb key "Q")%bool;
    exists w; repeat split; try assumption; apply Hw.
Qed.

Lemma main_loop_run keys : forall w cx cy,
  reliable -> wf w -> cursor_x w = Some cx -> cursor_y w = Some cy ->
  let p := path w keys (cx, cy) in
  exists w1,
    main_loop keys w = (w1, inr tt)
    /\ wf w1 /\ boundaries w1 = boundaries w
    /\ cursor_x w1 = Some (fst p) /\ cursor_y w1 = Some (snd p).
Proof.
  induction keys as [| key rest IH]; intros w cx cy Hr Hw Hx Hy;
    cbn [main_loop path].
  - exists w. repeat split; try assumption; apply Hw.
  - destruct (handle_key_step key w cx cy Hr Hw Hx Hy)
      as [w1 [H1 [Hw1 [Hb1 [Hx1 Hy1]]]]].
    unfold bind. rewrite H1.
    destruct (quits key) eqn:Eq; cbn [negb].
    + exists w1. cbv zeta. repeat split; try assumption; try apply Hw1.
      * rewrite Hx1. unfold next_position, arrow, quits in *.
        destruct (String.eqb key "KEY_LEFT") eqn:E1;
          [apply String.eqb_eq in E1; subst key; discriminate Eq |].
        destruct (String.eqb key "KEY_RIGHT") eqn:E2;
          [apply String.eqb_eq in E2; subst key; discriminate Eq |].
        destruct (String.eqb key "KEY_UP") eqn:E3;
          [apply String.eqb_eq in E3; subst key; discriminate Eq |].
        destruct (String.eqb key "KEY_DOWN") eqn:E4;
          [apply String.eqb_eq in E4; subst key; discriminate Eq |].
        reflexivity.
      * rewrite Hy1. unfold next_position, arrow, quits in *.
        destruct (String.eqb key "KEY_LEFT") eqn:E1;
          [apply String.eqb_eq in E1; subst key; discriminate Eq |].
        destruct (String.eqb key "KEY_RIGHT") eqn:E2;
          [apply String.eqb_eq in E2; subst key; discriminate Eq |].
        destruct (String.eqb key "KEY_UP") eqn:E3;
          [apply String.eqb_eq in E3; subst key; discriminate Eq |].
        destruct (String.eqb key "KEY_DOWN") eqn:E4;
          [apply String.eqb_eq in E4; subst key; discriminate Eq |].
        reflexivity.
    + destruct (IH w1 _ _ Hr Hw1 Hx1 Hy1) as [w2 [H2 [Hw2 [Hb2 [Hx2 Hy2]]]]].
      exists w2. cbv zeta. rewrite (path_boundaries w1 w _ _ Hb1) in Hx2, Hy2.
      rewrite <- surjective_pairing in Hx2, Hy2.
      repeat split; try assumption; try apply Hw2. congruence.
Qed.

(** X15.  On a screen that accepts the calls, from a window with current
    boundaries and its cursor placed inside the inner rectangle, the loop of
    [main] never raises whatever is typed: at the first q, or once the keys
    typed so far are read, the cursor is where the arrow keys lead, one cell
    at a time, an arrow into the border being ignored, clear and unknown
    keys leaving it in place; that cell is inside the inner rectangle, which
    is the one before. *)
Theorem main_loop_follows_the_keys keys w cx cy :
  reliable -> wf w -> cursor_x w = Some cx -> cursor_y w = Some cy ->
  let p := path w keys (cx, cy) in
  exists w1,
    main_loop keys w = (w1, inr tt)
    /\ cursor_x w1 = Some (fst p) /\ cursor_y w1 = Some (snd p)
    /\ cursor_position_in_bounds w (fst p) (snd p) = true
    /\ boundaries w1 = boundaries w.
Proof.
  intros Hr Hw Hx Hy p.
  destruct (main_loop_run keys w cx cy Hr Hw Hx Hy)
    as [w1 [H1 [Hw1 [Hb1 [Hx1 Hy1]]]]].
  exists w1. fold p in Hx1, Hy1. repeat split; try assumption.
  rewrite <- (in_bounds_boundaries w1 w _ _ Hb1).
  exact (proj2 Hw1 _ _ Hx1 Hy1).
Qed.

Lemma main_loop_cons key rest w :
  main_loop (key :: rest) w
  = match handle_key key w with
    | (w1, inr true) => main_loop rest w1
    | (w1, inr false) => (w1, inr tt)
    | (w1, inl e) => (w1, inl e)
    end.
Proof.
  cbn [main_loop]. unfold bind.
  destruct (handle_key key w) as [w1 [e | []]]; reflexivity.
Qed.

(** X16.  On any screen: what is typed after a q or a Q is never acted on,
    and a key that is neither an arrow, c, C, q nor Q is skipped, the loop
    doing with the other keys what it does without it. *)
Theorem main_loop_quit_and_unknown_keys before key after w :
  (quits key = true ->
   main_loop (before ++ key :: after) w = main_loop (before ++ [key]) w)
  /\ (arrow key = None -> quits key = false ->
      String.eqb key "c" = false -> String.eqb key "C" = false ->
      main_loop (before ++ key :: after) w = main_loop (before ++ after) w).
Proof.
  split.
  - intros Hq. revert w.
    induction before as [| k ks IH]; intros w; cbn [app].
    + rewrite !main_loop_cons.
      assert (H : handle_key key w = (w, inr false)).
      { unfold quits in Hq. apply Bool.orb_true_iff in Hq.
        destruct Hq as [E | E]; apply String.eqb_eq in E; subst key;
          reflexivity. }
      rewrite H. reflexivity.
    + rewrite !main_loop_cons.
      destruct (handle_key k w) as [w1 [e | []]]; [reflexivity | apply IH |
                                                   reflexivity].
  - intros Ha Hq Hc HC. revert w.
    induction before as [| k ks IH]; intros w; cbn [app].
    + rewrite main_loop_cons.
      assert (H : handle_key key w = (w, inr true)).
      { unfold handle_key. unfold arrow in Ha. unfold quits in Hq.
        destruct (String.eqb key "KEY_LEFT"); [discriminate Ha |].
        destruct (String.eqb key "KEY_RIGHT"); [discriminate Ha |].
        destruct (String.eqb key "KEY_UP"); [discriminate Ha |].
        destruct (String.eqb key "KEY_DOWN"); [discriminate Ha |].
        rewrite Hc, HC, Hq. reflexivity. }
      rewrite H. reflexivity.
    + rewrite !main_loop_cons.
      destruct (handle_key k w) as [w1 [e | []]]; [reflexivity | apply IH |
                                                   reflexivity].
Qed.

Lemma main_initial_in_bounds scr msg :
  let w0 := init_attributes scr None None 1 1 1 1 "#" "@"
              (curses.COLOR_WHITE, curses.COLOR_BLUE)
              (curses.COLOR_WHITE, curses.COLOR_GREEN) msg true in
  boundaries (fst (update_boundaries w0))
  = (1, 2, COLS - 3, LINES - 2, 2, COLS - 4, 3, LINES - 3)
  /\ initial_cursor_x w0 = 2 /\ initial_cursor_y w0 = 3
  /\ (cursor_position_in_bounds (fst (update_boundaries w0)) 2 3 = true
      <-> 6 <= COLS /\ 6 <= LINES).
Proof.
  intros w0. rewrite update_boundaries_eq.
  assert (Hb : boundaries
                 (set_boundaries (buffer_left w0) (buffer_top w0 + 1)
                    (COLS - 2 - buffer_right w0)
                    (LINES - 1 - buffer_bottom w0)
                    (if draw_border w0
                     then buffer_left w0 + 1 else buffer_left w0)
                    (if draw_border w0
                     then COLS - 2 - buffer_right w0 - 1
                     else COLS - 2 - buffer_right w0)
                    (if draw_border w0
                     then buffer_top w0 + 1 + 1 else buffer_top w0 + 1)
                    (if draw_border w0
                     then LINES - 1 - buffer_bottom w0 - 1
                     else LINES - 1 - buffer_bottom w0) w0)
               = (1, 2, COLS - 3, LINES - 2, 2, COLS - 4, 3, LINES - 3)).
  { unfold boundaries, set_boundaries, w0, init_attributes.
    cbn [min_x min_y max_x max_y cursor_min_x cursor_max_x cursor_min_y
         cursor_max_y buffer_left buffer_right buffer_top buffer_bottom
         draw_border].
    repeat match goal with |- (_, _) = (_, _) => f_equal end; lia. }
  split; [exact Hb |]. split; [reflexivity |]. split; [reflexivity |].
  clear Hb. unfold cursor_position_in_bounds, set_boundaries, w0,
    init_attributes.
  cbn [cursor_min_x cursor_max_x cursor_min_y cursor_max_y
       buffer_left buffer_right buffer_top buffer_bottom draw_border].
  repeat match goal with
  | |- context [?a <=? ?b] => destruct (Z.leb_spec a b)
  end; cbn [negb andb orb]; split; intros Hgoal;
    try discriminate Hgoal; try reflexivity; lia.
Qed.

(** X17.  On a screen that accepts the calls, [main] raises nothing,
    whatever is typed, exactly when the terminal has at least 6 columns and
    6 lines: the cursor starts at (2, 3), moves inside x in [2, COLS - 4],
    y in [3, LINES - 3], and at the first q, or once the keys typed so far
    are read, is where the keys lead.  On a smaller terminal [main] raises
    the out-of-bounds [ValueError] before it reads a key, with no cursor
    placed. *)
Theorem main_returns_iff_terminal_fits scr keys :
  reliable ->
  (6 <= COLS /\ 6 <= LINES ->
   exists w,
     main scr keys = (w, inr tt)
     /\ boundaries w = (1, 2, COLS - 3, LINES - 2, 2, COLS - 4, 3, LINES - 3)
     /\ cursor_x w = Some (fst (path w keys (2, 3)))
     /\ cursor_y w = Some (snd (path w keys (2, 3))))
  /\ (COLS < 6 \/ LINES < 6 ->
      exists w,
        main scr keys = (w, inl (ValueError OutOfBounds))
        /\ cursor_x w = None /\ cursor_y w = None
        /\ forall keys', main scr keys' = main scr keys).
Proof.
  intros Hr. unfold main, __init__.
  destruct (main_initial_in_bounds scr (Some help_text))
    as [Hb [Hix [Hiy Hok]]].
  set (w0 := init_attributes _ _ _ _ _ _ _ _ _ _ _ _ _) in *.
  pose proof (init_wf scr None None 1 1 1 1 "#" "@"
                (curses.COLOR_WHITE, curses.COLOR_BLUE)
                (curses.COLOR_WHITE, curses.COLOR_GREEN)
                (Some help_text) true) as Hwf.
  unfold __init__ in *. fold w0 in Hwf.
  pose proof (draw_initial_screen_true w0 (stdscr w0) Hr) as T.
  cbv zeta in T. rewrite set_stdscr_same, Hix, Hiy in T.
  split.
  - intros H. apply Hok in H. rewrite H in T. rewrite T.
    specialize (Hwf _ T). set (w1 := set_stdscr _ _) in *.
    destruct (main_loop_run keys w1 2 3 Hr Hwf eq_refl eq_refl)
      as [w2 [H2 [Hw2 [Hb2 [Hx2 Hy2]]]]].
    exists w2. rewrite <- (path_boundaries w2 w1 keys (2, 3) Hb2) in Hx2, Hy2.
    repeat split; try assumption.
    rewrite Hb2. exact Hb.
  - intros H.
    assert (E : cursor_position_in_bounds (fst (update_boundaries w0)) 2 3
                = false).
    { destruct (cursor_position_in_bounds _ 2 3); [| reflexivity].
      destruct (proj1 Hok eq_refl). lia. }
    rewrite E in T. rewrite T. eexists. split; [reflexivity |].
    repeat split.
Qed.

(** ** Further properties: where the colours go *)

Lemma emit_all_log h cs :
  exists l, fst (emit_all accepts h cs) = h ++ l /\ incl l cs.
Proof.
  revert h. induction cs as [| c cs IH]; intros h; cbn.
  - exists []. split; [rewrite app_nil_r; reflexivity | apply incl_refl].
  - destruct (accepts h c).
    + destruct (IH (h ++ [c])) as [l [Hl Hi]]. exists (c :: l). split.
      * rewrite Hl, <- app_assoc. reflexivity.
      * intros a [<- | Ha]; [left; reflexivity | right; apply Hi, Ha].
    + exists [c]. split; [reflexivity |].
      intros a [<- | []]. left. reflexivity.
Qed.

Lemma hoare_of_fst {A} (c : M A) (P Q : Window -> Prop) :
  (forall w, P w -> Q (fst (c w))) ->
  hoare P c (fun _ => Q) (fun _ => Q).
Proof.
  intros H w Hw. specialize (H w Hw).
  destruct (c w) as [w' [e | a]]; exact H.
Qed.

Lemma configuration_boundaries w w' :
  configuration w = configuration w' ->
  boundaries (fst (update_boundaries w))
  = boundaries (fst (update_boundaries w')).
Proof.
  intros H. rewrite !update_boundaries_eq. unfold configuration in H.
  injection H as Ht Hb Hl Hr _ _ _ _ _ Hd _ _.
  unfold boundaries, set_boundaries.
  cbn [min_x min_y max_x max_y cursor_min_x cursor_max_x cursor_min_y
       cursor_max_y].
  rewrite Ht, Hb, Hl, Hr, Hd. reflexivity.
Qed.

Section Inside.

Variable wref : Window.
Variable h0 : list call.
Hypothesis wref_current : boundaries_current wref.

Local Abbreviation out := (fun c => negb (inside wref c)).
Local Abbreviation pre := (paints_inside wref h0).
Local Abbreviation inv :=
  (fun w => paints_inside wref h0 w /\ boundaries w = boundaries wref).

Lemma out_uncoloured c : is_cursor_paint c = false -> out c = false.
Proof.
  destruct c as [| | | | y x s [a |] |]; cbn; intros H;
    try reflexivity; discriminate H.
Qed.

Lemma paints_inside_grows : grows out pre.
Proof.
  intros w c Hc [Hconf [Hcur [l [Hl Hin]]]].
  apply Bool.negb_false_iff in Hc. split; [| split].
  - destruct w; exact Hconf.
  - destruct w; exact Hcur.
  - exists (l ++ [c]). split.
    + destruct w; cbn in *. rewrite Hl, <- app_assoc. reflexivity.
    + apply Forall_app. split; [exact Hin | constructor; [exact Hc |]].
      constructor.
Qed.

Lemma inv_grows : grows out inv.
Proof.
  intros w c Hc [H Hb]. split; [apply paints_inside_grows; assumption |].
  destruct w; exact Hb.
Qed.

Lemma inv_update_boundaries w : pre w -> inv (fst (update_boundaries w)).
Proof.
  intros [Hconf [Hcur [l [Hl Hin]]]]. split; [split; [| split] |].
  - rewrite update_boundaries_configuration. exact Hconf.
  - destruct (update_boundaries_cursor w) as [-> ->]. exact Hcur.
  - exists l. split; [| exact Hin]. rewrite <- Hl.
    rewrite update_boundaries_eq. reflexivity.
  - rewrite (configuration_boundaries w wref Hconf).
    rewrite (update_boundaries_id wref wref_current). reflexivity.
Qed.

Lemma update_cursor_inside x y w : inv w -> inv (fst (update_cursor x y w)).
Proof.
  intros [[Hconf [Hcur [l [Hl Hin]]]] Hb].
  destruct (cursor_position_in_bounds w x y) eqn:E.
  2: { rewrite (update_cursor_out w x y E). repeat split; try assumption.
       exists l. split; assumption. }
  rewrite (update_cursor_emits w x y E).
  destruct (emit_all_log (stdscr w) (paint_calls w x y)) as [l' [Hl' Hi]].
  assert (Hp : Forall (fun c => inside wref c = true) l').
  { apply Forall_forall. intros c Hc. apply Hi in Hc.
    unfold paint_calls in Hc. apply in_app_or in Hc.
    destruct Hc as [Hc | [<- | []]].
    - destruct (cursor_x w) as [cx |] eqn:Hx; [| destruct Hc].
      destruct (cursor_y w) as [cy |] eqn:Hy; [| destruct Hc].
      destruct Hc as [<- | []]. cbn. apply Hcur; reflexivity.
    - cbn. rewrite <- (in_bounds_boundaries w wref x y Hb). exact E. }
  destruct (snd (emit_all accepts (stdscr w) (paint_calls w x y)));
    cbn [fst]; rewrite Hl'; (split; [split; [| split] |]).
  - destruct w; exact Hconf.
  - intros x' y' Hx' Hy'. cbn in Hx', Hy'.
    injection Hx' as <-. injection Hy' as <-.
    rewrite <- (in_bounds_boundaries w wref x y Hb). exact E.
  - exists (l ++ l' ++ [refresh]). split.
    + cbn [stdscr set_stdscr]. rewrite Hl, <- !app_assoc. reflexivity.
    + repeat (apply Forall_app; split); try assumption.
      constructor; [reflexivity | constructor].
  - destruct w; exact Hb.
  - destruct w; exact Hconf.
  - destruct w; exact Hcur.
  - exists (l ++ l'). split.
    + cbn [stdscr set_stdscr]. rewrite Hl, <- !app_assoc. reflexivity.
    + apply Forall_app; split; assumption.
  - destruct w; exact Hb.
Qed.

Lemma update_cursor_dyn_inside x y :
  hoare inv (update_cursor_dyn x y) (fun _ => inv) (fun _ => inv).
Proof.
  unfold update_cursor_dyn. apply hoare_gets_drop. intros r.
  destruct r as [e | b]; [apply hoare_raise; auto |].
  destruct x as [x |]; [destruct y as [y |] |];
    [| apply hoare_raise; auto ..].
  apply hoare_of_fst. apply update_cursor_inside.
Qed.

Lemma move_cursor_inside d n :
  hoare inv (move_cursor d n) (fun _ => inv) (fun _ => inv).
Proof.
  unfold move_cursor. destruct (n <? 1); [apply hoare_raise; auto |].
  apply hoare_gets_drop. intros c.
  destruct c as [e | [x y]]; [apply hoare_raise; auto |].
  apply hoare_gets_drop. intros r.
  destruct r as [e | b]; [apply hoare_raise; auto |].
  destruct b; [| apply hoare_ret; auto].
  destruct x as [x |]; [destruct y as [y |] |];
    [| apply hoare_ret; auto ..].
  eapply hoare_bind;
    [apply hoare_of_fst; apply update_cursor_inside |].
  intros u. apply hoare_ret. auto.
Qed.

Lemma draw_box_inside :
  hoare inv draw_box (fun _ => inv) (fun _ => inv).
Proof.
  apply (draw_box_g out); [apply inv_grows | apply out_uncoloured | auto].
Qed.

Lemma draw_initial_screen_inside b :
  hoare pre (draw_initial_screen b) (fun _ => inv) (fun _ => pre).
Proof.
  apply (draw_initial_screen_parts out b pre inv inv).
  - apply paints_inside_grows.
  - apply inv_grows.
  - apply out_uncoloured.
  - apply inv_update_boundaries.
  - auto.
  - intros w [H _] _. exact H.
  - destruct b.
    + eapply hoare_bind with (R := fun _ => inv).
      { apply hoare_modify. intros w [[Hconf [Hcur Hlog]] Hb].
        split; [split; [| split] |].
        - destruct w; exact Hconf.
        - intros x y Hx. discriminate Hx.
        - destruct w; exact Hlog.
        - destruct w; exact Hb. }
      intros u. apply hoare_gets_drop. intros x. apply hoare_gets_drop.
      intros y.
      apply hoare_weaken
        with (P' := inv) (Q' := fun _ => inv) (E' := fun _ => inv);
        [apply hoare_of_fst; apply (update_cursor_inside x y) | auto | auto |].
      intros e w [H _]. exact H.
    + apply hoare_gets_drop. intros x. apply hoare_gets_drop. intros y.
      apply hoare_weaken
        with (P' := inv) (Q' := fun _ => inv) (E' := fun _ => inv);
        [apply update_cursor_dyn_inside | auto | auto |].
      intros e w [H _]. exact H.
  - apply (hoare_emit_last_g out); [apply inv_grows | reflexivity | auto |].
    intros w [H _] _. exact H.
Qed.



End Inside.

Lemma paints_inside_start w :
  wf w ->
  paints_inside w (stdscr w) w /\ boundaries w = boundaries w.
Proof.
  intros Hw. split; [| reflexivity]. split; [reflexivity | split].
  - exact (proj2 Hw).
  - exists []. split; [rewrite app_nil_r; reflexivity | constructor].
Qed.

Lemma paints_inside_init scr cx cy bt bb bl br pc cc pp cp msg db :
  let w0 := init_attributes scr cx cy bt bb bl br pc cc pp cp msg db in
  paints_inside (fst (update_boundaries w0)) scr w0.
Proof.
  intros w0. split; [| split].
  - symmetry. apply update_boundaries_configuration.
  - intros x y Hx. discriminate Hx.
  - exists []. split; [rewrite app_nil_r; reflexivity | constructor].
Qed.

(** X13.  On any screen, whether the call returns or raises: the coloured
    paints a method adds to the screen, the cursor glyphs, are all on cells
    of the inner rectangle, so neither the border nor anything outside is
    ever painted over; the same holds for all the constructor paints, for
    the inner rectangle of the configuration. *)
Theorem coloured_paints_stay_inside :
  (forall m w, wf w ->
     exists l, stdscr (run m w) = stdscr w ++ l
               /\ Forall (fun c => inside w c = true) l)
  /\ (forall scr cx cy bt bb bl br pc cc pp cp msg db,
        let wb := fst (update_boundaries
                         (init_attributes scr cx cy bt bb bl br pc cc pp cp
                            msg db)) in
        exists l,
          stdscr (fst (__init__ scr cx cy bt bb bl br pc cc pp cp msg db))
          = scr ++ l
          /\ Forall (fun c => inside wb c = true) l).
Proof.
  split.
  - intros m w Hw. pose proof (paints_inside_start w Hw) as Hs.
    assert (H : paints_inside w (stdscr w) (run m w)).
    { destruct m; cbn [run].
      - rewrite (update_boundaries_id w (proj1 Hw)). exact (proj1 Hs).
      - apply (hoare_fst _ _ _ w (draw_box_inside w (stdscr w))) in Hs.
        exact (proj1 Hs).
      - exact (proj1 (update_cursor_inside w (stdscr w) x y w Hs)).
      - apply (hoare_fst _ _ _ w
                 (move_cursor_inside w (stdscr w) direction distance)) in Hs.
        exact (proj1 Hs).
      - pose proof (draw_initial_screen_inside w (stdscr w) (proj1 Hw)
                      reset_cursor w (proj1 Hs)) as H.
        destruct (draw_initial_screen reset_cursor w) as [w' [e | u]];
          [exact H | exact (proj1 H)]. }
    exact (proj2 (proj2 H)).
  - intros scr cx cy bt bb bl br pc cc pp cp msg db wb.
    unfold __init__.
    pose proof (paints_inside_init scr cx cy bt bb bl br pc cc pp cp msg db)
      as Hs.
    cbv zeta in Hs. fold wb in Hs.
    pose proof (draw_initial_screen_inside wb scr
                  (update_boundaries_current _) true _ Hs) as H.
    destruct (draw_initial_screen true _) as [w' [e | u]];
      [exact (proj2 (proj2 H)) | exact (proj2 (proj2 (proj1 H)))].
Qed.


(** X19.  With margins that are not negative, the boundaries of the
    configuration and an outer rectangle that has a cell, every cell of the
    border is a cell of the terminal, below the row of the message and left
    of the last column. *)
Theorem border_on_terminal w y x s a :
  boundaries_current w ->
  0 <= buffer_top w -> 0 <= buffer_bottom w ->
  0 <= buffer_left w -> 0 <= buffer_right w ->
  min_x w <= max_x w -> min_y w <= max_y w ->
  In (addstr y x s a) (box_calls w) ->
  0 <= x < COLS - 1 /\ 1 <= y < LINES.
Proof.
  intros Hb Ht Hbo Hl Hr Hxx Hyy Hc. unfold boundaries_current in Hb.
  rewrite update_boundaries_eq in Hb.
  assert (Hx0 : min_x w = buffer_left w) by (rewrite <- Hb; reflexivity).
  assert (Hx1 : max_x w = COLS - 2 - buffer_right w)
    by (rewrite <- Hb; reflexivity).
  assert (Hy0 : min_y w = buffer_top w + 1) by (rewrite <- Hb; reflexivity).
  assert (Hy1 : max_y w = LINES - 1 - buffer_bottom w)
    by (rewrite <- Hb; reflexivity).
  clear Hb. unfold box_calls in Hc. apply in_app_or in Hc.
  destruct Hc as [Hc | Hc]; apply in_flat_map in Hc;
    destruct Hc as [i [Hi Hc]]; apply in_range in Hi;
    destruct Hc as [Hc | [Hc | []]]; injection Hc as <- <- _ _; lia.
Qed.

End Properties.

(** * The claims at concrete windows *)

Lemma accepts_all_reliable : reliable accepts_all.
Proof. intros h c. reflexivity. Qed.

Lemma cursor_inside_inner_rectangle_witness :
  reachable 14 8 accepts_all scenario
  /\ cursor_position_in_bounds scenario 3 3 = true.
Proof.
  assert (H : reachable 14 8 accepts_all scenario).
  { apply (reach_init 14 8 accepts_all [] (Some 3) (Some 3) 0 1 1 1 "#" "@"
             (curses.COLOR_WHITE, curses.COLOR_BLACK)
             (curses.COLOR_RED, curses.COLOR_WHITE) None true).
    vm_compute. reflexivity. }
  split; [exact H |].
  apply (proj1 (cursor_inside_inner_rectangle 14 8 accepts_all scenario H));
    vm_compute; reflexivity.
Defined.

Lemma move_cursor_moves_witness :
  reliable accepts_all
  /\ snd (move_cursor accepts_all (Member RIGHT) 2 scenario) = inr true
  /\ cursor_x (fst (move_cursor accepts_all (Member RIGHT) 2 scenario))
     = Some 5.
Proof.
  split; [exact accepts_all_reliable |].
  rewrite (proj1 (move_cursor_moves accepts_all accepts_all_reliable)
             scenario RIGHT 2 3 3)
    by (vm_compute; (reflexivity || discriminate)).
  split; reflexivity.
Defined.

Lemma blocked_move_is_rejected_witness :
  move_cursor accepts_all (Member LEFT) 5 scenario = (scenario, inr false).
Proof.
  assert (Hx : cursor_x scenario = Some 3) by (vm_compute; reflexivity).
  assert (Hy : cursor_y scenario = Some 3) by (vm_compute; reflexivity).
  assert (Hn : 1 <= 5) by lia.
  assert (Hb : cursor_position_in_bounds scenario
                 (fst (offset LEFT 5 3 3)) (snd (offset LEFT 5 3 3)) = false)
    by (vm_compute; reflexivity).
  exact (proj1 (blocked_move_is_rejected
                  accepts_all scenario LEFT 5 3 3 Hx Hy Hn Hb)).
Defined.

Lemma update_cursor_succeeds_iff_in_bounds_witness :
  update_cursor accepts_all 0 0 scenario
  = (scenario, inl (ValueError OutOfBounds))
  /\ snd (update_cursor accepts_all 4 4 scenario) = inr tt.
Proof.
  split.
  - apply (proj1 (update_cursor_succeeds_iff_in_bounds
                    accepts_all scenario 0 0)).
    vm_compute. reflexivity.
  - rewrite (proj2 (proj2 (update_cursor_succeeds_iff_in_bounds
                             accepts_all scenario 4 4))).
    + reflexivity.
    + exact accepts_all_reliable.
    + vm_compute. reflexivity.
Defined.

Lemma move_cursor_invalid_argument_witness :
  move_cursor accepts_all (Member UP) 0 scenario
  = (scenario, inl (ValueError (BadDistance 0)))
  /\ move_cursor accepts_all (Other "diagonal") 1 scenario
     = (scenario, inl (ValueError (BadDirection "diagonal"))).
Proof.
  split.
  - apply (proj1 (move_cursor_invalid_argument
                    accepts_all scenario (Member UP) 0)).
    lia.
  - apply (proj1 (proj2 (move_cursor_invalid_argument
                           accepts_all scenario (Other "diagonal") 1))).
    lia.
Defined.

Lemma inner_within_outer_witness :
  let w' := fst (update_boundaries 80 24 default_attributes) in
  min_x w' <= max_x w' /\ min_y w' <= max_y w'
  /\ cursor_position_in_bounds w' (min_x w') (min_y w') = false.
Proof.
  cbv zeta.
  assert (Hx : min_x (fst (update_boundaries 80 24 default_attributes))
               <= max_x (fst (update_boundaries 80 24 default_attributes)))
    by (vm_compute; discriminate).
  assert (Hy : min_y (fst (update_boundaries 80 24 default_attributes))
               <= max_y (fst (update_boundaries 80 24 default_attributes)))
    by (vm_compute; discriminate).
  split; [exact Hx | split; [exact Hy |]].
  apply (inner_within_outer 80 24 default_attributes Hx Hy).
Defined.



Lemma default_initial_position_in_bounds_witness :
  let wb := fst (update_boundaries 80 24 default_attributes) in
  cursor_min_x wb <= cursor_max_x wb /\ cursor_min_y wb <= cursor_max_y wb
  /\ cursor_position_in_bounds wb 2 3 = true.
Proof.
  cbv zeta.
  assert (Hx : cursor_min_x (fst (update_boundaries 80 24 default_attributes))
               <= cursor_max_x
                    (fst (update_boundaries 80 24 default_attributes)))
    by (vm_compute; discriminate).
  assert (Hy : cursor_min_y (fst (update_boundaries 80 24 default_attributes))
               <= cursor_max_y
                    (fst (update_boundaries 80 24 default_attributes)))
    by (vm_compute; discriminate).
  split; [exact Hx | split; [exact Hy |]].
  exact (proj1 (proj2 (proj2 (default_initial_position_in_bounds
                                80 24 accepts_all [] 1 1 1 1 "#" "@"
                                (curses.COLOR_WHITE, curses.COLOR_BLACK)
                                (curses.COLOR_RED, curses.COLOR_WHITE)
                                None true)) Hx Hy)).
Defined.

(** C3 as stated fails: on an 80 x 24 terminal with the default margins the
    code's outer rectangle is x in [1, 77], y in [2, 22], where the stated
    formula gives x in [1, 78], y in [1, 22]. *)
Lemma outer_rectangle_counterexample :
  let w' := fst (update_boundaries 80 24 default_attributes) in
  (min_x w', max_x w', min_y w', max_y w') = (1, 77, 2, 22)
  /\ spec_outer 80 24 default_attributes = (1, 78, 1, 22)
  /\ (min_x w', max_x w', min_y w', max_y w')
     <> spec_outer 80 24 default_attributes.
Proof.
  cbv zeta. repeat split; try (vm_compute; reflexivity).
  vm_compute. discriminate.
Qed.



(** * The further properties at concrete windows *)

Lemma scenario_reachable : reachable 14 8 accepts_all scenario.
Proof.
  apply (reach_init 14 8 accepts_all [] (Some 3) (Some 3) 0 1 1 1 "#" "@"
           (curses.COLOR_WHITE, curses.COLOR_BLACK)
           (curses.COLOR_RED, curses.COLOR_WHITE) None true).
  vm_compute. reflexivity.
Qed.

Lemma scenario_wf : wf 14 8 scenario.
Proof. exact (reachable_wf 14 8 accepts_all scenario scenario_reachable). Qed.

Lemma draw_box_issues_box_calls_witness :
  reliable accepts_all
  /\ draw_box accepts_all scenario
     = (set_stdscr (stdscr scenario ++ box_calls scenario) scenario, inr tt).
Proof.
  split; [exact accepts_all_reliable |].
  exact (proj2 (draw_box_issues_box_calls accepts_all scenario)
           accepts_all_reliable).
Defined.

Lemma box_cells_on_perimeter_witness :
  In (addstr 1 1 "|" None) (box_calls scenario)
  /\ cursor_position_in_bounds scenario 1 1 = false.
Proof.
  assert (Hin : In (addstr 1 1 "|" None) (box_calls scenario))
    by (vm_compute; left; reflexivity).
  assert (Hb : boundaries_current 14 8 scenario)
    by (vm_compute; reflexivity).
  assert (Hd : draw_border scenario = true) by (vm_compute; reflexivity).
  split; [exact Hin |].
  destruct (box_cells_on_perimeter 14 8 scenario _ Hin)
    as [y [x [s [Heq [_ H]]]]].
  injection Heq as <- <- _. exact (H Hb Hd).
Defined.

Lemma draw_box_count_witness :
  max_y (fst (update_boundaries 1 1 default_attributes))
  < min_y (fst (update_boundaries 1 1 default_attributes))
  /\ max_x (fst (update_boundaries 1 1 default_attributes))
     < min_x (fst (update_boundaries 1 1 default_attributes))
  /\ draw_box accepts_all (fst (update_boundaries 1 1 default_attributes))
     = (fst (update_boundaries 1 1 default_attributes), inr tt).
Proof.
  assert (Hy : max_y (fst (update_boundaries 1 1 default_attributes))
               < min_y (fst (update_boundaries 1 1 default_attributes)))
    by (vm_compute; reflexivity).
  assert (Hx : max_x (fst (update_boundaries 1 1 default_attributes))
               < min_x (fst (update_boundaries 1 1 default_attributes)))
    by (vm_compute; reflexivity).
  split; [exact Hy | split; [exact Hx |]].
  exact (proj2 (draw_box_count accepts_all
                  (fst (update_boundaries 1 1 default_attributes))) Hy Hx).
Defined.

Lemma boundaries_never_move_witness :
  boundaries_current 14 8 scenario
  /\ boundaries
       (fst (main_loop 14 8 accepts_all ["KEY_RIGHT"; "c"] scenario))
     = boundaries scenario.
Proof.
  assert (Hb : boundaries_current 14 8 scenario)
    by (vm_compute; reflexivity).
  split; [exact Hb |].
  exact (proj2 (proj1 (boundaries_never_move 14 8 accepts_all scenario) Hb)
           ["KEY_RIGHT"; "c"]).
Defined.

Lemma cursor_on_terminal_witness :
  reachable 14 8 accepts_all scenario
  /\ 0 <= 3 < 14 - 1 /\ 1 <= 3 < 8.
Proof.
  assert (Ht : 0 <= buffer_top scenario) by (vm_compute; discriminate).
  assert (Hb : 0 <= buffer_bottom scenario) by (vm_compute; discriminate).
  assert (Hl : 0 <= buffer_left scenario) by (vm_compute; discriminate).
  assert (Hr : 0 <= buffer_right scenario) by (vm_compute; discriminate).
  assert (Hx : cursor_x scenario = Some 3) by (vm_compute; reflexivity).
  assert (Hy : cursor_y scenario = Some 3) by (vm_compute; reflexivity).
  split; [exact scenario_reachable |].
  exact (cursor_on_terminal 14 8 accepts_all scenario 3 3
           scenario_reachable Ht Hb Hl Hr Hx Hy).
Defined.

Lemma update_cursor_on_any_screen_witness :
  cursor_position_in_bounds scenario 4 4 = true
  /\ snd (update_cursor refuses_refresh 4 4 scenario) = inl curses_error
  /\ cursor_x (fst (update_cursor refuses_refresh 4 4 scenario)) = Some 4.
Proof.
  assert (Hb : cursor_position_in_bounds scenario 4 4 = true)
    by (vm_compute; reflexivity).
  split; [exact Hb |].
  pose proof (update_cursor_on_any_screen refuses_refresh scenario 4 4 Hb)
    as H.
  cbv zeta in H. destruct H as [_ [H _]].
  assert (Hs : snd (emit_all refuses_refresh (stdscr scenario)
                      (paint_calls scenario 4 4)) = true)
    by (vm_compute; reflexivity).
  destruct (H Hs) as [Hw He]. rewrite Hw, He. split; reflexivity.
Defined.

Lemma move_cursor_round_trip_witness :
  reliable accepts_all
  /\ (move_cursor accepts_all (Member RIGHT) 2 ;;
      move_cursor accepts_all (Member (opposite RIGHT)) 2) scenario
     = (set_stdscr
          (stdscr scenario
           ++ [addstr 3 3 (prev_point_char scenario) (Some 1);
               addstr (snd (offset RIGHT 2 3 3)) (fst (offset RIGHT 2 3 3))
                 (curr_point_char scenario) (Some 2);
               refresh;
               addstr (snd (offset RIGHT 2 3 3)) (fst (offset RIGHT 2 3 3))
                 (prev_point_char scenario) (Some 1);
               addstr 3 3 (curr_point_char scenario) (Some 2);
               refresh]) scenario,
        inr true).
Proof.
  assert (Hx : cursor_x scenario = Some 3) by (vm_compute; reflexivity).
  assert (Hy : cursor_y scenario = Some 3) by (vm_compute; reflexivity).
  assert (Hn : 1 <= 2) by lia.
  assert (Hb : cursor_position_in_bounds scenario
                 (fst (offset RIGHT 2 3 3)) (snd (offset RIGHT 2 3 3)) = true)
    by (vm_compute; reflexivity).
  split; [exact accepts_all_reliable |].
  exact (move_cursor_round_trip 14 8 accepts_all scenario RIGHT 2 3 3
           accepts_all_reliable scenario_wf Hx Hy Hn Hb).
Defined.

Lemma move_cursor_unset_cursor_witness :
  cursor_x default_attributes = None
  /\ move_cursor accepts_all (Member LEFT) 1 default_attributes
     = (default_attributes, inl TypeError).
Proof.
  assert (Hx : cursor_x default_attributes = None) by reflexivity.
  assert (Hn : 1 <= 1) by lia.
  split; [exact Hx |].
  exact (move_cursor_unset_cursor accepts_all default_attributes LEFT 1
           Hx Hn).
Defined.

Lemma move_cursor_result_witness :
  cursor_x scenario = Some 3 /\ cursor_y scenario = Some 3
  /\ match move_cursor refuses_refresh (Member RIGHT) 1 scenario with
     | (w', inr b) =>
         b = cursor_position_in_bounds scenario
               (fst (offset RIGHT 1 3 3)) (snd (offset RIGHT 1 3 3))
         /\ (if b
             then cursor_x w' = Some (fst (offset RIGHT 1 3 3))
                  /\ cursor_y w' = Some (snd (offset RIGHT 1 3 3))
             else w' = scenario)
     | (w', inl e) =>
         e = curses_error
         /\ cursor_position_in_bounds scenario
              (fst (offset RIGHT 1 3 3)) (snd (offset RIGHT 1 3 3)) = true
     end.
Proof.
  assert (Hx : cursor_x scenario = Some 3) by (vm_compute; reflexivity).
  assert (Hy : cursor_y scenario = Some 3) by (vm_compute; reflexivity).
  assert (Hn : 1 <= 1) by lia.
  split; [exact Hx | split; [exact Hy |]].
  exact (move_cursor_result refuses_refresh scenario RIGHT 1 3 3 Hx Hy Hn).
Defined.

Lemma constructor_returns_iff_initial_in_bounds_witness :
  reliable accepts_all
  /\ snd (__init__ 14 8 accepts_all [] (Some 0) (Some 0) 0 1 1 1 "#" "@"
            (curses.COLOR_WHITE, curses.COLOR_BLACK)
            (curses.COLOR_RED, curses.COLOR_WHITE) None true)
     = inl (ValueError OutOfBounds).
Proof.
  split; [exact accepts_all_reliable |].
  pose proof (constructor_returns_iff_initial_in_bounds 14 8 accepts_all
                [] (Some 0) (Some 0) 0 1 1 1 "#" "@"
                (curses.COLOR_WHITE, curses.COLOR_BLACK)
                (curses.COLOR_RED, curses.COLOR_WHITE) None true
                accepts_all_reliable) as H.
  cbv zeta in H. destruct H as [_ H].
  match type of H with
  | ?A -> _ => assert (Hok : A) by (vm_compute; reflexivity)
  end.
  destruct (H Hok) as [He _]. rewrite He. reflexivity.
Defined.

Lemma reachable_window_has_cursor_witness :
  reliable accepts_all /\ reachable 14 8 accepts_all scenario
  /\ cursor_position_in_bounds scenario
       (initial_cursor_x scenario) (initial_cursor_y scenario) = true.
Proof.
  split; [exact accepts_all_reliable | split; [exact scenario_reachable |]].
  exact (proj1 (proj2 (reachable_window_has_cursor 14 8 accepts_all scenario
                         accepts_all_reliable scenario_reachable))).
Defined.

Lemma coloured_paints_stay_inside_witness :
  wf 14 8 scenario
  /\ exists l,
       stdscr (run 14 8 refuses_refresh
                 (call_move_cursor (Member RIGHT) 1) scenario)
       = stdscr scenario ++ l
       /\ Forall (fun c => inside scenario c = true) l.
Proof.
  split; [exact scenario_wf |].
  exact (proj1 (coloured_paints_stay_inside 14 8 refuses_refresh)
           (call_move_cursor (Member RIGHT) 1) scenario scenario_wf).
Defined.

Lemma draw_initial_screen_calls_witness :
  reliable accepts_all /\ cursor_x default_attributes = None
  /\ snd (draw_initial_screen 80 24 accepts_all false default_attributes)
     = inl TypeError.
Proof.
  assert (Hx : cursor_x default_attributes = None) by reflexivity.
  split; [exact accepts_all_reliable | split; [exact Hx |]].
  pose proof (draw_initial_screen_calls 80 24 accepts_all default_attributes
                accepts_all_reliable) as H.
  cbv zeta in H. destruct H as [_ [_ H]]. rewrite (H Hx). reflexivity.
Defined.

Lemma main_loop_follows_the_keys_witness :
  reliable accepts_all
  /\ exists w1,
       main_loop 14 8 accepts_all
         ["KEY_RIGHT"; "KEY_UP"; "KEY_UP"; "x"; "q"; "KEY_LEFT"] scenario
       = (w1, inr tt)
       /\ cursor_x w1 = Some 4 /\ cursor_y w1 = Some 2.
Proof.
  assert (Hx : cursor_x scenario = Some 3) by (vm_compute; reflexivity).
  assert (Hy : cursor_y scenario = Some 3) by (vm_compute; reflexivity).
  assert (Hp : path scenario
                 ["KEY_RIGHT"; "KEY_UP"; "KEY_UP"; "x"; "q"; "KEY_LEFT"]
                 (3, 3) = (4, 2)) by (vm_compute; reflexivity).
  split; [exact accepts_all_reliable |].
  pose proof (main_loop_follows_the_keys 14 8 accepts_all
                ["KEY_RIGHT"; "KEY_UP"; "KEY_UP"; "x"; "q"; "KEY_LEFT"]
                scenario 3 3 accepts_all_reliable scenario_wf Hx Hy) as H.
  cbv zeta in H. rewrite Hp in H. destruct H as [w1 [H1 [Hx1 [Hy1 _]]]].
  exists w1. split; [exact H1 | split; [exact Hx1 | exact Hy1]].
Defined.

Lemma main_loop_quit_and_unknown_keys_witness :
  quits "q" = true
  /\ main_loop 14 8 refuses_refresh (["KEY_RIGHT"] ++ "q" :: ["KEY_LEFT"])
       scenario
     = main_loop 14 8 refuses_refresh (["KEY_RIGHT"] ++ ["q"]) scenario.
Proof.
  assert (Hq : quits "q" = true) by reflexivity.
  split; [exact Hq |].
  exact (proj1 (main_loop_quit_and_unknown_keys 14 8 refuses_refresh
                  ["KEY_RIGHT"] "q" ["KEY_LEFT"] scenario) Hq).
Defined.

Lemma main_returns_iff_terminal_fits_witness :
  reliable accepts_all /\ 6 <= 80 /\ 6 <= 24
  /\ exists w, main 80 24 accepts_all [] ["KEY_DOWN"; "q"] = (w, inr tt).
Proof.
  assert (Hc : 6 <= 80 /\ 6 <= 24) by lia.
  split; [exact accepts_all_reliable |].
  split; [exact (proj1 Hc) | split; [exact (proj2 Hc) |]].
  destruct (proj1 (main_returns_iff_terminal_fits 80 24 accepts_all
                     [] ["KEY_DOWN"; "q"] accepts_all_reliable) Hc)
    as [w [Hm _]].
  exists w. exact Hm.
Defined.

Lemma border_on_terminal_witness :
  boundaries_current 14 8 scenario
  /\ In (addstr 1 1 "|" None) (box_calls scenario)
  /\ 0 <= 1 < 14 - 1 /\ 1 <= 1 < 8.
Proof.
  assert (Hb : boundaries_current 14 8 scenario)
    by (vm_compute; reflexivity).
  assert (Ht : 0 <= buffer_top scenario) by (vm_compute; discriminate).
  assert (Hbo : 0 <= buffer_bottom scenario) by (vm_compute; discriminate).
  assert (Hl : 0 <= buffer_left scenario) by (vm_compute; discriminate).
  assert (Hr : 0 <= buffer_right scenario) by (vm_compute; discriminate).
  assert (Hxx : min_x scenario <= max_x scenario)
    by (vm_compute; discriminate).
  assert (Hyy : min_y scenario <= max_y scenario)
    by (vm_compute; discriminate).
  assert (Hin : In (addstr 1 1 "|" None) (box_calls scenario))
    by (vm_compute; left; reflexivity).
  split; [exact Hb | split; [exact Hin |]].
  exact (border_on_terminal 14 8 scenario 1 1 "|" None
           Hb Ht Hbo Hl Hr Hxx Hyy Hin).
Defined.
